(** * snowflake_connector: chunked retrieval and connection lifecycle

    A shallow embedding of the package's three classes
    ([SnowflakeConnection], [DataRetriever], [ConnectionManager]) and of the
    module-level facade, followed by the properties of its specification.

    The vendor driver, pandas and the interactive prompts are external
    collaborators.  They are modelled by their documented interface only:
    a DB-API cursor over a finite result set, a data frame as a pair of
    column labels and rows, and an environment that answers every driver
    call and every prompt. *)

From Stdlib Require Import String Ascii List Arith Lia Bool ZArith.
From Equations Require Import Equations.
Import ListNotations.
Open Scope string_scope.
Open Scope nat_scope.
Open Scope list_scope.

Set Implicit Arguments.

(** ** Python values, exceptions and results *)

(** The cell values a result row can hold. *)
Inductive Value : Type :=
| VNone
| VInt (z : Z)
| VStr (s : string).

(** A row is a fixed-arity tuple of cell values, in column order. *)
Definition Row : Type := list Value.

(** A raised exception: its class name and [str(e)]. *)
Record Exception : Type := Exc { exc_class : string; exc_msg : string }.

Inductive Result (A : Type) : Type :=
| Ok (a : A)
| Raise (e : Exception).
Arguments Ok {A} a.
Arguments Raise {A} e.

Definition is_raise {A} (r : Result A) : bool :=
  match r with Ok _ => false | Raise _ => true end.

(** The built-in classes that derive from [BaseException] and not from
    [Exception]: a handler [except Exception:] does not catch them. *)
Definition base_only : list string :=
  ["BaseException"; "KeyboardInterrupt"; "SystemExit"; "GeneratorExit"].

(** [isinstance(e, Exception)] *)
Definition derives_Exception (e : Exception) : bool :=
  negb (existsb (String.eqb (exc_class e)) base_only).

(** ** Python dictionaries

    Insertion-ordered; assigning to an existing key keeps its position and
    replaces its value. *)
Section Dict.
Variable V : Type.

Definition Dict : Type := list (string * V).

Fixpoint dict_set (k : string) (v : V) (d : Dict) : Dict :=
    match d with
    | [] => [(k, v)]
    | (k', v') :: d' =>
        if String.eqb k k' then (k, v) :: d' else (k', v') :: dict_set k v d'
    end.

Fixpoint dict_get (k : string) (d : Dict) : option V :=
    match d with
    | [] => None
    | (k', v') :: d' => if String.eqb k k' then Some v' else dict_get k d'
    end.

Definition dict_has (k : string) (d : Dict) : bool :=
    match dict_get k d with Some _ => true | None => false end.

  (** [dict(pairs)]: pairs are inserted left to right. *)
Definition dict_of (pairs : list (string * V)) : Dict :=
    fold_left (fun d kv => dict_set (fst kv) (snd kv) d) pairs [].

  (** [{**d, **e}]: the entries of [e] are assigned on top of [d]. *)
Definition dict_update (d e : Dict) : Dict :=
    fold_left (fun acc kv => dict_set (fst kv) (snd kv) acc) e d.
End Dict.

(** [zip(xs, ys)] stops at the shorter sequence; this is [List.combine]. *)
Definition zip {A B} (xs : list A) (ys : list B) : list (A * B) := combine xs ys.

(** ** The driver's cursor (DB-API)

    A cursor bound to one executed query: the result metadata, the rows the
    driver has not delivered yet (in delivery order), and two counters that
    record how often [fetchmany] and [close] were called on it. *)
Record ColumnMeta : Type := Column { col_name : string; col_type : nat }.

Record Cursor : Type := mkCursor {
  description : list ColumnMeta;
  pending : list Row;
  fetch_calls : nat;
  close_calls : nat
}.

(** The cursor [cursor.execute(sql)] leaves behind for a query whose result
    has metadata [descr] and rows [rows]. *)
Definition executed (descr : list ColumnMeta) (rows : list Row) : Cursor :=
  mkCursor descr rows 0 0.

(** [cursor.fetchmany(n)]: the next [n] rows, fewer when fewer remain, the
    empty list when none remain. *)
Definition fetchmany (n : nat) (c : Cursor) : list Row * Cursor :=
  (firstn n (pending c),
   mkCursor (description c) (skipn n (pending c)) (S (fetch_calls c)) (close_calls c)).

(** [cursor.fetchall()]. *)
Definition fetchall (c : Cursor) : list Row * Cursor :=
  (pending c, mkCursor (description c) [] (fetch_calls c) (close_calls c)).

(** [cursor.fetchone()]: the next row, or [None]. *)
Definition fetchone (c : Cursor) : option Row * Cursor :=
  match pending c with
  | [] => (None, c)
  | r :: rest =>
      (Some r, mkCursor (description c) rest (fetch_calls c) (close_calls c))
  end.

(** [cursor.close()]. *)
Definition close (c : Cursor) : Cursor :=
  mkCursor (description c) (pending c) (fetch_calls c) (S (close_calls c)).

(** An assignment to [cursor.description] made by the driver. *)
Definition set_description (d : list ColumnMeta) (c : Cursor) : Cursor :=
  mkCursor d (pending c) (fetch_calls c) (close_calls c).

(** [[desc[0] for desc in cursor.description]] *)
Definition column_names (c : Cursor) : list string :=
  map col_name (description c).

(** ** pandas

    A data frame is its column labels and its rows in index order.
    [pd.concat] refuses an empty list of frames with a [ValueError]; for
    frames that carry the same labels (the only ones built below) it stacks
    their rows in list order under those labels. *)
Record DataFrame : Type := mkDataFrame {
  df_columns : list string;
  df_rows : list Row
}.

Definition pd_DataFrame (rows : list Row) (columns : list string) : DataFrame :=
  mkDataFrame columns rows.

Definition no_objects : Exception :=
  Exc "ValueError" "No objects to concatenate".

Definition pd_concat (frames : list DataFrame) : Result DataFrame :=
  match frames with
  | [] => Raise no_objects
  | f :: _ => Ok (mkDataFrame (df_columns f) (concat (map df_rows frames)))
  end.

(** [cursor.fetch_pandas_all()]: the driver's bulk fetch. *)
Definition fetch_pandas_all (c : Cursor) : DataFrame * Cursor :=
  (mkDataFrame (column_names c) (pending c),
   mkCursor (description c) [] (fetch_calls c) (close_calls c)).

(** [dict(zip(column_names, row))] *)
Definition row_dict (names : list string) (row : Row) : Dict Value :=
  dict_of (zip names row).

(** ** DataRetriever

    Every method starts with [cursor = self.connection.execute_query(...)];
    the definitions of this section are the method bodies from the [try:]
    on, as functions of that cursor.  They return the cursor as the
    [finally:] block leaves it.  The records these methods write to the
    log report counts and decide nothing; they are left out. *)

Definition inspect {A} (a : A) : {b : A | a = b} := exist _ a eq_refl.

(** [if chunk_size:] on an [Optional[int]]: [None] and [0] are falsy. *)
Definition chunking (chunk_size : option nat) : option nat :=
  match chunk_size with
  | Some (S n) => Some (S n)
  | _ => None
  end.

Section FetchLoop.
Variable A : Type.
  (** What one iteration does with a non-empty chunk: the accumulator, the
      rows just fetched and the cursor after the fetch. *)
Variable body : A -> list Row -> Cursor -> A.

  (** [while True: rows = cursor.fetchmany(size); if not rows: break; body] *)
Equations? fetch_loop (size : nat) (cursor : Cursor) (acc : A) : Cursor * A
    by wf (length (pending cursor)) lt :=
    fetch_loop size cursor acc with inspect (fst (fetchmany size cursor)) => {
      | exist _ [] _ => (snd (fetchmany size cursor), acc);
      | exist _ (r :: rs) _ =>
          fetch_loop size (snd (fetchmany size cursor))
            (body acc (r :: rs) (snd (fetchmany size cursor))) }.
Proof.
    simpl in *.
    destruct size as [|size]; [discriminate|].
    destruct (pending cursor) as [|x xs]; [discriminate|].
    simpl. pose proof (length_skipn size xs). lia.
Qed.
End FetchLoop.

(** [DataRetriever.fetch_pandas], from the [try:] on. *)
Definition fetch_pandas (cursor : Cursor) (chunk_size : option nat)
  : Result DataFrame * Cursor :=
  match chunking chunk_size with
  | Some size =>
      let (cursor, chunks) :=
        fetch_loop
          (fun chunks rows cur => chunks ++ [pd_DataFrame rows (column_names cur)])
          size cursor [] in
      (pd_concat chunks, close cursor)
  | None =>
      let (result_df, cursor) := fetch_pandas_all cursor in
      (Ok result_df, close cursor)
  end.

(** [DataRetriever.fetch_dict], from the [try:] on. *)
Definition fetch_dict (cursor : Cursor) (chunk_size : option nat)
  : Result (list (Dict Value)) * Cursor :=
  let names := column_names cursor in
  match chunking chunk_size with
  | Some size =>
      let (cursor, results) :=
        fetch_loop
          (fun results rows _ => results ++ map (row_dict names) rows)
          size cursor [] in
      (Ok results, close cursor)
  | None =>
      let (rows, cursor) := fetchall cursor in
      (Ok (map (row_dict names) rows), close cursor)
  end.

(** [DataRetriever.fetch_one] and [DataRetriever.fetch_all]. *)
Definition fetch_one (cursor : Cursor) : Result (option Row) * Cursor :=
  let (row, cursor) := fetchone cursor in (Ok row, close cursor).

Definition fetch_all (cursor : Cursor) : Result (list Row) * Cursor :=
  let (rows, cursor) := fetchall cursor in (Ok rows, close cursor).

(** ** The lazy batch methods as generators

    [fetch_pandas_batches] and [fetch_dict_batches] are generator
    functions: calling them runs nothing, every [next()] runs the body up
    to the next [yield], and [close()] (called by the consumer, or by the
    interpreter when an abandoned generator is finalised) raises
    [GeneratorExit] at the [yield] where the generator is parked, which
    runs the [finally:] block. *)
Inductive Generator : Type :=
| Unstarted (cursor : Cursor) (batch_size : nat)
    (** created, body not entered; [cursor] is what [execute_query] hands
        back when the body starts *)
| Parked (cursor : Cursor) (column_names : list string)
         (batch_count : nat) (batch_size : nat)
    (** suspended at the [yield] *)
| Finished (cursor : option Cursor).
    (** returned or closed; the cursor as [finally:] left it, [None] when
        the body never ran and no cursor was opened *)

Section Batches.
Variable B : Type.
  (** How a batch is built from the captured column names and a chunk. *)
Variable make : list string -> list Row -> B.

  (** From the top of [while True:] to the next [yield], or through
      [break] and [finally:] to the end of the body. *)
Definition resume (cursor : Cursor) (names : list string)
             (batch_count batch_size : nat) : option B * Generator :=
    let (rows, cursor) := fetchmany batch_size cursor in
    match rows with
    | [] => (None, Finished (Some (close cursor)))
    | _ :: _ =>
        (Some (make names rows), Parked cursor names (S batch_count) batch_size)
    end.

  (** [next(gen)]; [None] is [StopIteration]. *)
Definition next (g : Generator) : option B * Generator :=
    match g with
    | Unstarted cursor batch_size =>
        resume cursor (column_names cursor) 0 batch_size
    | Parked cursor names batch_count batch_size =>
        resume cursor names batch_count batch_size
    | Finished cursor => (None, Finished cursor)
    end.

  (** [gen.close()]. *)
Definition gen_close (g : Generator) : Generator :=
    match g with
    | Unstarted _ _ => Finished None
    | Parked cursor _ _ _ => Finished (Some (close cursor))
    | Finished cursor => Finished cursor
    end.

  (** What can happen to a generator between its creation and its end: the
      consumer pulls, the consumer abandons it, or the driver rewrites the
      description of the cursor the parked generator holds. *)
Inductive Action : Type :=
  | Pull
  | Abandon
  | Redescribe (d : list ColumnMeta).

Definition act (a : Action) (g : Generator) : option B * Generator :=
    match a with
    | Pull => next g
    | Abandon => (None, gen_close g)
    | Redescribe d =>
        match g with
        | Parked cursor names batch_count batch_size =>
            (None, Parked (set_description d cursor) names batch_count batch_size)
        | _ => (None, g)
        end
    end.

  (** The batches a schedule of actions receives, and the generator after it. *)
Fixpoint run (acts : list Action) (g : Generator) : list B * Generator :=
    match acts with
    | [] => ([], g)
    | a :: acts' =>
        let (out, g') := act a g in
        let (outs, g'') := run acts' g' in
        (match out with Some b => b :: outs | None => outs end, g'')
    end.

  (** A consumer that calls [next()] [n] times. *)
Definition pull (n : nat) (g : Generator) : list B * Generator :=
    run (repeat Pull n) g.
End Batches.

(** [DataRetriever.fetch_pandas_batches]: [pd.DataFrame(rows, columns=column_names)]. *)
Definition pandas_batch (names : list string) (rows : list Row) : DataFrame :=
  pd_DataFrame rows names.

(** [DataRetriever.fetch_dict_batches]: [[dict(zip(column_names, row)) for row in rows]]. *)
Definition dict_batch (names : list string) (rows : list Row) : list (Dict Value) :=
  map (row_dict names) rows.

Definition fetch_pandas_batches (cursor : Cursor) (batch_size : nat) : Generator :=
  Unstarted cursor batch_size.

Definition fetch_dict_batches (cursor : Cursor) (batch_size : nat) : Generator :=
  Unstarted cursor batch_size.

(** ** The environment

    The driver and the terminal are outside the program.  Every call that
    leaves the program is answered by the environment as a function of how
    many such calls were made before it, and is recorded, together with
    every log record and every printed line, in the order it happened. *)
Definition Handle : Type := nat.

Record Environment : Type := mkEnv {
  on_connect : nat -> Result Handle;   (** [snowflake.connector.connect], called with the parameter dictionary *)
  on_execute : nat -> Result Cursor;   (** [conn.cursor()] then [cursor.execute(sql, **kwargs)] *)
  on_close : nat -> Result unit;       (** [conn.close()] *)
  on_prompt : nat -> Result string     (** [get_input] and [get_password] *)
}.

Inductive Level : Type := DEBUG | INFO | WARNING | ERROR.

Inductive Event : Type :=
| DriverConnect (params : Dict Value)
| DriverExecute (conn : Handle) (sql : string) (kwargs : Dict Value)
| DriverClose (conn : Handle)
| Prompt (secret : bool) (prompt : string)
| Log (level : Level) (msg : string)
| Print (line : string).

Record World : Type := mkWorld {
  tick : nat;
  events : list Event
}.

Definition emit (e : Event) (w : World) : World :=
  mkWorld (tick w) (events w ++ [e]).

(** A call out of the program: record it, take the environment's answer. *)
Definition call {A} (answer : nat -> Result A) (e : Event) (w : World)
  : Result A * World :=
  (answer (tick w), mkWorld (S (tick w)) (events w ++ [e])).

Definition logger (level : Level) (msg : string) : World -> World :=
  emit (Log level msg).

Definition print (line : string) : World -> World := emit (Print line).

(** The log records among a list of events. *)
Fixpoint logs (es : list Event) : list (Level * string) :=
  match es with
  | [] => []
  | Log level msg :: es' => (level, msg) :: logs es'
  | _ :: es' => logs es'
  end.

(** The parameter dictionaries of the driver connections attempted. *)
Fixpoint opens (es : list Event) : list (Dict Value) :=
  match es with
  | [] => []
  | DriverConnect params :: es' => params :: opens es'
  | _ :: es' => opens es'
  end.

(** The statements executed through the driver. *)
Fixpoint executes (es : list Event) : list (Handle * string) :=
  match es with
  | [] => []
  | DriverExecute conn sql _ :: es' => (conn, sql) :: executes es'
  | _ :: es' => executes es'
  end.

(** ** SnowflakeConnection (connection.py)

    [__del__] calls [disconnect] when the interpreter finalises a session
    object.  When that happens is decided by the garbage collector, and
    exceptions raised there are discarded by the interpreter; finalisers
    are not part of these definitions, which describe the calls the
    program makes itself. *)
Module SnowflakeConnection.

Record t : Type := mk {
    account : string;
    user : string;
    password : string;
    warehouse : option string;
    database : option string;
    schema : option string;
    role : option string;
    authenticator : string;
    extra_params : Dict Value;
    _connection : option Handle;
    _is_connected : bool
  }.

  (** [__init__] *)
Definition init (account user password : string)
             (warehouse database schema role : option string)
             (authenticator : string) (kwargs : Dict Value) : t :=
    mk account user password warehouse database schema role authenticator
       kwargs None false.

  (** The two assignments [self._connection = c; self._is_connected = b]. *)
Definition set_handle (self : t) (c : option Handle) (b : bool) : t :=
    mk (account self) (user self) (password self) (warehouse self)
       (database self) (schema self) (role self) (authenticator self)
       (extra_params self) c b.

Definition set_password (self : t) (p : string) : t :=
    mk (account self) (user self) p (warehouse self)
       (database self) (schema self) (role self) (authenticator self)
       (extra_params self) (_connection self) (_is_connected self).

  (** [if self.warehouse: connection_params["warehouse"] = self.warehouse]:
      the test is Python truth, which [None] and the empty string fail. *)
Definition truthy (field : option string) : bool :=
    match field with
    | Some s => negb (String.eqb s "")
    | None => false
    end.

Definition add_if (key : string) (field : option string) (params : Dict Value)
    : Dict Value :=
    match field with
    | Some s => if truthy field then dict_set key (VStr s) params else params
    | None => params
    end.

  (** The dictionary built between lines 88 and 104. *)
Definition connection_params (self : t) : Dict Value :=
    let params :=
      dict_update
        [("account", VStr (account self));
         ("user", VStr (user self));
         ("password", VStr (password self));
         ("authenticator", VStr (authenticator self))]
        (extra_params self) in
    let params := add_if "warehouse" (warehouse self) params in
    let params := add_if "database" (database self) params in
    let params := add_if "schema" (schema self) params in
    add_if "role" (role self) params.

Section WithEnv.
Variable env : Environment.

    (** The second [try:] of [connect]: open a new driver connection.  Its
        handler is [except Exception as e:]; anything else the driver
        raises leaves the method with the session as it is. *)
Definition open (self : t) (w : World) : Result Handle * t * World :=
      let w := logger INFO ("Connecting to Snowflake account: " ++ account self
                            ++ " as user: " ++ user self)%string w in
      let params := connection_params self in
      match call (on_connect env) (DriverConnect params) w with
      | (Ok conn, w) =>
          let self := set_handle self (Some conn) true in
          let w := logger INFO "Successfully connected to Snowflake" w in
          (Ok conn, self, w)
      | (Raise e, w) =>
          if derives_Exception e then
            let w := logger ERROR ("Failed to connect to Snowflake: " ++ exc_msg e)%string w in
            let self := set_handle self None false in
            (Raise e, self, w)
          else (Raise e, self, w)
      end.

    (** [connect].  The probe's handler is [except Exception:]. *)
Definition connect (self : t) (w : World) : Result Handle * t * World :=
      match _is_connected self, _connection self with
      | true, Some conn =>
          match call (on_execute env) (DriverExecute conn "SELECT 1" []) w with
          | (Ok _, w) => (Ok conn, self, w)
          | (Raise e, w) =>
              if derives_Exception e then
                let w := logger WARNING "Cached connection is dead, reconnecting..." w in
                let self := set_handle self None false in
                open self w
              else (Raise e, self, w)
          end
      | _, _ => open self w
      end.

    (** [get_connection] *)
Definition get_connection (self : t) (w : World) : Result Handle * t * World :=
      connect self w.

    (** [disconnect].  The handler is [except Exception as e:]; the
        [finally:] block clears the handle and the flag on every path,
        also when [close()] raised something the handler does not catch,
        which then leaves the method. *)
Definition disconnect (self : t) (w : World) : Result unit * t * World :=
      match _connection self with
      | Some conn =>
          match call (on_close env) (DriverClose conn) w with
          | (Ok _, w) =>
              let w := logger INFO "Disconnected from Snowflake" w in
              (Ok tt, set_handle self None false, w)
          | (Raise e, w) =>
              if derives_Exception e then
                let w := logger WARNING ("Error during disconnect: " ++ exc_msg e)%string w in
                (Ok tt, set_handle self None false, w)
              else (Raise e, set_handle self None false, w)
          end
      | None => (Ok tt, self, w)
      end.

    (** [execute_query] *)
Definition execute_query (self : t) (query : string) (kwargs : Dict Value)
               (w : World) : Result Cursor * t * World :=
      match get_connection self w with
      | (Ok conn, self, w) =>
          let (cursor, w) := call (on_execute env) (DriverExecute conn query kwargs) w in
          (cursor, self, w)
      | (Raise e, self, w) => (Raise e, self, w)
      end.
End WithEnv.

End SnowflakeConnection.

(** The account used when none is given. *)
Definition default_account : string := "GAIADLH-HPA09261".

(** The parameters of [SnowflakeConnection.__init__], all of which
    [ConnectionManager.connect] passes by keyword. *)
Definition init_keywords : list string :=
  ["account"; "user"; "password"; "warehouse"; "database"; "schema"; "role";
   "authenticator"].

(** The first key of [**kwargs] that repeats a keyword of the call. *)
Definition clashing (kwargs : Dict Value) : option string :=
  find (fun key => existsb (String.eqb key) init_keywords) (map fst kwargs).

(** What a call raises when [**kwargs] repeats one of its keywords.  The
    interpreter puts the name of the callee in front of the message. *)
Definition duplicate_keyword (key : string) : Exception :=
  Exc "TypeError" ("got multiple values for keyword argument '" ++ key ++ "'")%string.

(** What [_ensure_connected] raises, in both modules. *)
Definition not_connected : Exception :=
  Exc "ConnectionError" "Not connected to Snowflake. Please call connect() first.".

(** A generator object that has not run yet: the arguments its body will
    receive.  Nothing is sent to the driver until the first [next()]. *)
Record Deferred : Type := Defer {
  deferred_sql : string;
  deferred_batch_size : nat;
  deferred_kwargs : Dict Value
}.

(** ** ConnectionManager (connection_manager.py)

    [self._retriever] is [DataRetriever(self._connection)]: the retriever
    holds the very connection object the manager holds, so the retriever's
    methods below read and update the manager's [_connection] slot. *)
Module ConnectionManager.

Inductive DataRetriever : Type := Retriever.

Record t : Type := mk {
    _connection : option SnowflakeConnection.t;
    _retriever : option DataRetriever
  }.

  (** [__init__] *)
Definition init : t := mk None None.

  (** [is_connected] *)
Definition is_connected (self : t) : bool :=
    match _connection self with
    | Some c => SnowflakeConnection._is_connected c
    | None => false
    end.

  (** [_ensure_connected] *)
Definition _ensure_connected (self : t) : Result (option DataRetriever) :=
    if negb (is_connected self) then Raise not_connected
    else Ok (_retriever self).

Section WithEnv.
Variable env : Environment.

    (** [user = get_input(...)] / [password = get_password(...)] when the
        argument is [None]. *)
Definition or_prompt (arg : option string) (secret : bool) (prompt : string)
               (w : World) : Result string * World :=
      match arg with
      | Some s => (Ok s, w)
      | None => call (on_prompt env) (Prompt secret prompt) w
      end.

    (** [connect].  The session is built by a call that gives every
        parameter of [SnowflakeConnection.__init__] by keyword and then
        [**kwargs]; a key of [kwargs] that repeats one of them makes that
        call raise [TypeError] before [self._connection] is assigned. *)
Definition connect (self : t) (account user password warehouse role : option string)
               (kwargs : Dict Value) (w : World) : Result unit * t * World :=
      let account := match account with Some a => a | None => default_account end in
      match or_prompt user false "Enter Snowflake username: " w with
      | (Raise e, w) => (Raise e, self, w)
      | (Ok user, w) =>
          match or_prompt password true "Enter Snowflake password: " w with
          | (Raise e, w) => (Raise e, self, w)
          | (Ok password, w) =>
              match clashing kwargs with
              | Some key => (Raise (duplicate_keyword key), self, w)
              | None =>
                  let c := SnowflakeConnection.init account user password
                             warehouse None None role "snowflake" kwargs in
                  match SnowflakeConnection.connect env c w with
                  | (Raise e, c, w) => (Raise e, mk (Some c) (_retriever self), w)
                  | (Ok _, c, w) =>
                      (Ok tt, mk (Some c) (Some Retriever),
                       print "Successfully connected to Snowflake!" w)
                  end
              end
          end
      end.

    (** [disconnect] *)
Definition disconnect (self : t) (w : World) : Result unit * t * World :=
      match _connection self with
      | Some c =>
          match SnowflakeConnection.disconnect env c w with
          | (Ok _, _, w) => (Ok tt, mk None None, print "Disconnected from Snowflake." w)
          | (Raise e, c, w) => (Raise e, mk (Some c) (_retriever self), w)
          end
      | None => (Ok tt, self, w)
      end.

    (** A retriever method that is not a generator: [_ensure_connected],
        then [self.connection.execute_query], then the body on the cursor. *)
Definition with_cursor {A} (body : Cursor -> Result A * Cursor)
               (self : t) (sql : string) (kwargs : Dict Value) (w : World)
      : Result A * t * World :=
      match _ensure_connected self, _connection self with
      | Raise e, _ => (Raise e, self, w)
      | Ok (Some Retriever), Some c =>
          match SnowflakeConnection.execute_query env c sql kwargs w with
          | (Ok cursor, c, w) => (fst (body cursor), mk (Some c) (_retriever self), w)
          | (Raise e, c, w) => (Raise e, mk (Some c) (_retriever self), w)
          end
      | Ok _, _ =>
          (Raise (Exc "AttributeError" "'NoneType' object has no attribute"), self, w)
      end.

    (** A retriever method that is a generator: [_ensure_connected], then
        the generator object. *)
Definition deferred (self : t) (sql : string) (batch_size : nat)
               (kwargs : Dict Value) (w : World) : Result Deferred * t * World :=
      match _ensure_connected self with
      | Raise e => (Raise e, self, w)
      | Ok (Some Retriever) => (Ok (Defer sql batch_size kwargs), self, w)
      | Ok None =>
          (Raise (Exc "AttributeError" "'NoneType' object has no attribute"), self, w)
      end.

Definition query (self : t) sql (chunk_size : option nat) kwargs :=
      with_cursor (fun cursor => fetch_pandas cursor chunk_size) self sql kwargs.

Definition query_batches (self : t) sql (batch_size : nat) kwargs :=
      deferred self sql batch_size kwargs.

Definition query_dict (self : t) sql (chunk_size : option nat) kwargs :=
      with_cursor (fun cursor => fetch_dict cursor chunk_size) self sql kwargs.

Definition query_dict_batches (self : t) sql (batch_size : nat) kwargs :=
      deferred self sql batch_size kwargs.

    (** [DataRetriever.execute] returns the open cursor. *)
Definition execute (self : t) sql kwargs :=
      with_cursor (fun cursor => (Ok cursor, cursor)) self sql kwargs.

Definition fetch_one (self : t) sql kwargs :=
      with_cursor fetch_one self sql kwargs.

Definition fetch_all (self : t) sql kwargs :=
      with_cursor fetch_all self sql kwargs.
End WithEnv.

End ConnectionManager.

(** The first [next()] on a generator object: its body starts with
    [self.connection.execute_query(query, **kwargs)] on the connection the
    retriever holds, and continues as a generator over that cursor. *)
Definition start (env : Environment) (connection : SnowflakeConnection.t)
           (g : Deferred) (w : World)
  : Result Generator * SnowflakeConnection.t * World :=
  match SnowflakeConnection.execute_query env connection
          (deferred_sql g) (deferred_kwargs g) w with
  | (Ok cursor, connection, w) =>
      (Ok (Unstarted cursor (deferred_batch_size g)), connection, w)
  | (Raise e, connection, w) => (Raise e, connection, w)
  end.

(** ** The module-level facade (__init__.py)

    The process holds one global, [_connection_manager]. *)
Module Facade.

Record Process : Type := mkProcess {
    _connection_manager : option ConnectionManager.t;
    world : World
  }.

  (** A freshly imported module. *)
Definition imported : Process := mkProcess None (mkWorld 0 []).

Section WithEnv.
Variable env : Environment.

  (** [connect].  The global is rebound to a new manager before that
      manager connects.  What the interpreter finalises once the previous
      manager is no longer referenced is not part of this definition (see
      [SnowflakeConnection]). *)
Definition connect (account user password warehouse role : option string)
             (kwargs : Dict Value) (p : Process) : Result unit * Process :=
    let account := match account with Some a => a | None => default_account end in
    match ConnectionManager.or_prompt env user false "Enter Snowflake username: " (world p) with
    | (Raise e, w) => (Raise e, mkProcess (_connection_manager p) w)
    | (Ok user, w) =>
        match ConnectionManager.or_prompt env password true "Enter Snowflake password: " w with
        | (Raise e, w) => (Raise e, mkProcess (_connection_manager p) w)
        | (Ok password, w) =>
            let '(r, manager, w) :=
              ConnectionManager.connect env ConnectionManager.init
                (Some account) (Some user) (Some password) warehouse role kwargs w in
            (r, mkProcess (Some manager) w)
        end
    end.

  (** [disconnect] *)
Definition disconnect (p : Process) : Result unit * Process :=
    match _connection_manager p with
    | Some manager =>
        match ConnectionManager.disconnect env manager (world p) with
        | (Ok _, _, w) => (Ok tt, mkProcess None w)
        | (Raise e, manager, w) => (Raise e, mkProcess (Some manager) w)
        end
    | None => (Ok tt, p)
    end.

  (** [_ensure_connected] *)
Definition _ensure_connected (p : Process) : Result ConnectionManager.t :=
    match _connection_manager p with
    | None => Raise not_connected
    | Some manager =>
        if negb (ConnectionManager.is_connected manager) then Raise not_connected
        else Ok manager
    end.

  (** [manager = _ensure_connected(); return manager.method(...)] *)
Definition entry {A} (method : ConnectionManager.t -> World ->
                                 Result A * ConnectionManager.t * World)
             (p : Process) : Result A * Process :=
    match _ensure_connected p with
    | Raise e => (Raise e, p)
    | Ok manager =>
        let '(r, manager, w) := method manager (world p) in
        (r, mkProcess (Some manager) w)
    end.

Definition query sql (chunk_size : option nat) kwargs :=
    entry (fun m => ConnectionManager.query env m sql chunk_size kwargs).

Definition query_batches sql (batch_size : nat) kwargs :=
    entry (fun m => ConnectionManager.query_batches m sql batch_size kwargs).

Definition query_dict sql (chunk_size : option nat) kwargs :=
    entry (fun m => ConnectionManager.query_dict env m sql chunk_size kwargs).

Definition query_dict_batches sql (batch_size : nat) kwargs :=
    entry (fun m => ConnectionManager.query_dict_batches m sql batch_size kwargs).

Definition execute sql kwargs :=
    entry (fun m => ConnectionManager.execute env m sql kwargs).

Definition fetch_one sql kwargs :=
    entry (fun m => ConnectionManager.fetch_one env m sql kwargs).

Definition fetch_all sql kwargs :=
    entry (fun m => ConnectionManager.fetch_all env m sql kwargs).
End WithEnv.

End Facade.

(** ** Vocabulary of the specification *)

(** [ceil(n / k)] *)
Definition ceil_div (n k : nat) : nat := (n + k - 1) / k.

(** The size of the last of the batches [n] rows fall into:
    [n mod k], or [k] when [k] divides [n]. *)
Definition last_size (n k : nat) : nat :=
  if n mod k =? 0 then k else n mod k.

(** A list cut every [k] elements, front to back. *)
Fixpoint cut {A} (fuel k : nat) (l : list A) : list (list A) :=
  match fuel, l with
  | S fuel', _ :: _ => firstn k l :: cut fuel' k (skipn k l)
  | _, _ => []
  end.

Definition chunked {A} (k : nat) (l : list A) : list (list A) :=
  cut (length l) k l.

(** The cursor a retrieval leaves behind once every row was fetched by
    [n] calls of [fetchmany], before it is closed. *)
Definition drained (c : Cursor) (n : nat) : Cursor :=
  mkCursor (description c) [] (fetch_calls c + n) (close_calls c).

(** The cursor of a generator parked at its [yield] has not been closed. *)
Definition open_while_parked (g : Generator) : bool :=
  match g with
  | Parked cursor _ _ _ => close_calls cursor =? 0
  | _ => true
  end.

(** The generator is over and [close()] was called on its cursor exactly once. *)
Definition closed_once (g : Generator) : bool :=
  match g with
  | Finished (Some cursor) => close_calls cursor =? 1
  | _ => false
  end.


(** What holds of a generator all along: it was created over a cursor no
    one has closed and whose description yields [names]; parked, it holds
    that cursor still open and carries [names]; finished, it has closed the
    cursor once, or never opened one. *)
Definition gen_inv (names : list string) (g : Generator) : Prop :=
  match g with
  | Unstarted c _ => close_calls c = 0 /\ column_names c = names
  | Parked c carried _ _ => close_calls c = 0 /\ carried = names
  | Finished (Some c) => close_calls c = 1
  | Finished None => True
  end.

(** The same, once the body has been entered. *)
Definition started (names : list string) (g : Generator) : Prop :=
  match g with
  | Unstarted _ _ => False
  | Parked c carried _ _ => close_calls c = 0 /\ carried = names
  | Finished (Some c) => close_calls c = 1
  | Finished None => False
  end.

(** The events recorded between two worlds of one execution. *)
Definition since (before after : World) : list Event :=
  skipn (length (events before)) (events after).

(** The connected flag is set only when a connection handle is present. *)
Definition flag_needs_handle (s : SnowflakeConnection.t) : bool :=
  implb (SnowflakeConnection._is_connected s)
        (match SnowflakeConnection._connection s with Some _ => true | None => false end).

(** A connection handle is present only when the connected flag is set. *)
Definition handle_needs_flag (s : SnowflakeConnection.t) : bool :=
  implb (match SnowflakeConnection._connection s with Some _ => true | None => false end)
        (SnowflakeConnection._is_connected s).

(** The session is observably disconnected. *)
Definition disconnected (s : SnowflakeConnection.t) : Prop :=
  SnowflakeConnection._connection s = None
  /\ SnowflakeConnection._is_connected s = false.

(** No keyword among the optional fields is left in [**kwargs]: Python
    binds a keyword that names a declared parameter to that parameter. *)
Definition kwargs_bound (kwargs : Dict Value) : bool :=
  negb (dict_has "warehouse" kwargs) && negb (dict_has "database" kwargs)
  && negb (dict_has "schema" kwargs) && negb (dict_has "role" kwargs).

(** An optional field is sent as [key] exactly when it is not [None]. *)
Definition sent_iff_present (key : string) (field : option string)
           (params : Dict Value) : Prop :=
  dict_has key params = true <-> field <> None.

(** An optional field is sent as [key], with its value, exactly when it is
    neither [None] nor the empty string. *)
Definition sent_iff_nonempty (key : string) (field : option string)
           (params : Dict Value) : Prop :=
  dict_get key params =
    if SnowflakeConnection.truthy field then option_map VStr field else None.

(** Every per-query entry point of the facade fails with the error of
    [_ensure_connected] and leaves the process as it was. *)
Definition refuses (env : Environment) (p : Facade.Process) : Prop :=
  forall (sql : string) (chunk_size : option nat) (batch_size : nat)
         (kwargs : Dict Value),
    Facade.query env sql chunk_size kwargs p = (Raise not_connected, p)
    /\ Facade.query_batches sql batch_size kwargs p = (Raise not_connected, p)
    /\ Facade.query_dict env sql chunk_size kwargs p = (Raise not_connected, p)
    /\ Facade.query_dict_batches sql batch_size kwargs p = (Raise not_connected, p)
    /\ Facade.execute env sql kwargs p = (Raise not_connected, p)
    /\ Facade.fetch_one env sql kwargs p = (Raise not_connected, p)
    /\ Facade.fetch_all env sql kwargs p = (Raise not_connected, p).

(** ** Sample data *)

Definition sample_descr : list ColumnMeta := [Column "ID" 0; Column "NAME" 2].

Definition sample_rows : list Row :=
  [[VInt 1; VStr "a"]; [VInt 2; VStr "b"]; [VInt 3; VStr "c"];
   [VInt 4; VStr "d"]; [VInt 5; VStr "e"]].

Definition sample_env : Environment :=
  mkEnv (fun n => Ok (100 + n))
        (fun n => if n =? 0 then Raise (Exc "OperationalError" "connection closed")
                  else Ok (executed sample_descr sample_rows))
        (fun _ => Raise (Exc "OperationalError" "socket gone"))
        (fun _ => Ok "alice").

(** A session that was connected some time ago. *)
Definition sample_session : SnowflakeConnection.t :=
  SnowflakeConnection.mk "acct" "alice" "s3cret" (Some "WH") None None (Some "ANALYST")
    "snowflake" [("login_timeout", VInt 10)] (Some 7) true.

(** A session whose warehouse was given as the empty string. *)
Definition blank_warehouse : SnowflakeConnection.t :=
  SnowflakeConnection.init "acct" "alice" "s3cret" (Some "") None None None
    "snowflake" [].

Definition fresh_world : World := mkWorld 0 [].

(** A driver that answers nothing: every probe and every opening fails. *)
Definition dead_env : Environment :=
  mkEnv (fun _ => Raise (Exc "DatabaseError" "250001: could not connect"))
        (fun _ => Raise (Exc "OperationalError" "connection closed"))
        (fun _ => Raise (Exc "OperationalError" "socket gone"))
        (fun _ => Raise (Exc "EOFError" "EOF when reading a line")).


(** ** SnowflakeConnection as a context manager (connection.py)

    [with connection as c: body] calls [__enter__]; when that returns it
    runs the body and then [__exit__], whether the body returned or raised.
    [__exit__] returns [None], so an exception of the body is raised again
    after it. *)
Definition __enter__ (env : Environment) (self : SnowflakeConnection.t) (w : World)
  : Result unit * SnowflakeConnection.t * World :=
  match SnowflakeConnection.connect env self w with
  | (Ok _, self, w) => (Ok tt, self, w)
  | (Raise e, self, w) => (Raise e, self, w)
  end.

Definition __exit__ (env : Environment) (self : SnowflakeConnection.t) (w : World)
  : Result unit * SnowflakeConnection.t * World :=
  SnowflakeConnection.disconnect env self w.

Definition with_connection {A} (env : Environment)
           (body : SnowflakeConnection.t -> World ->
                   Result A * SnowflakeConnection.t * World)
           (self : SnowflakeConnection.t) (w : World)
  : Result A * SnowflakeConnection.t * World :=
  match __enter__ env self w with
  | (Raise e, self, w) => (Raise e, self, w)
  | (Ok _, self, w) =>
      let '(r, self, w) := body self w in
      match __exit__ env self w with
      | (Raise e, self, w) => (Raise e, self, w)
      | (Ok _, self, w) => (r, self, w)
      end
  end.

(** ** utils.py

    The terminal, the interpreter's module table and IPython are outside
    the program.  What the handlers of [utils.py] can tell apart of an
    exception is its kind; [str.strip] is Python's. *)
Module Utils.

Inductive Kind : Type :=
| EOFError
| KeyboardInterrupt
| ImportError
| AttributeError
| OtherException        (** any other class derived from [Exception] *)
| OtherBaseException.   (** any other class derived from [BaseException] only *)

(** [except Exception:] *)
Definition is_Exception (k : Kind) : bool :=
  match k with
  | KeyboardInterrupt | OtherBaseException => false
  | _ => true
  end.

Inductive Outcome (A : Type) : Type :=
| Returns (a : A)
| Raises (k : Kind).
Arguments Returns {A} a.
Arguments Raises {A} k.

Record Terminal : Type := mkTerminal {
  ipykernel_loaded : bool;                 (** ['ipykernel' in sys.modules] *)
  IPython_loaded : bool;                   (** ['IPython' in sys.modules] *)
  import_get_ipython : Outcome unit;       (** [from IPython import get_ipython] *)
  get_ipython : Outcome (option string);   (** the shell's class name, or [None] *)
  getpass : Outcome string;                (** [getpass.getpass(prompt)] *)
  import_ipython_getpass : Outcome unit;   (** [from IPython.core.getpass import getpass] *)
  ipython_getpass : Outcome string;        (** [ipython_getpass(prompt)] *)
  input : Outcome string                   (** [input(prompt)] *)
}.

(** What the user sees. *)
Inductive Shown : Type :=
| Hidden (prompt : string)      (** a prompt whose answer is not echoed *)
| Warned (message : string)     (** [warnings.warn(message, UserWarning)] *)
| Visible (prompt : string).    (** [input(prompt)]: the answer is echoed *)

Section WithTerminal.
Variable term : Terminal.
Variable strip : string -> string.

(** [except (ImportError, AttributeError): pass], then [return False]. *)
Definition or_false (o : Outcome bool) : Outcome bool :=
  match o with
  | Raises ImportError | Raises AttributeError => Returns false
  | _ => o
  end.

(** [is_jupyter] *)
Definition is_jupyter : Outcome bool :=
  or_false
    (if ipykernel_loaded term then Returns true
     else if IPython_loaded term then
       match import_get_ipython term with
       | Raises k => Raises k
       | Returns _ =>
           match get_ipython term with
           | Raises k => Raises k
           | Returns (Some name) => Returns (String.eqb name "ZMQInteractiveShell")
           | Returns None => Returns false
           end
       end
     else Returns false).

(** [get_input] *)
Definition get_input (prompt : string) : Outcome string * list Shown :=
  (match input term with
   | Returns s => Returns (strip s)
   | Raises k => Raises k
   end, [Visible prompt]).

(** The last resort of [get_password]: warn, then read with [input]. *)
Definition last_resort (prompt : string) (shown : list Shown)
  : Outcome string * list Shown :=
  (match input term with
   | Returns s => Returns (strip s)
   | Raises k => Raises k
   end,
   shown ++ [Warned "Password input will be visible. Consider using getpass in a terminal.";
             Visible prompt]).

(** [get_password] *)
Definition get_password (prompt : string) : Outcome string * list Shown :=
  match getpass term with
  | Returns password => (Returns password, [Hidden prompt])
  | Raises EOFError => (Raises EOFError, [Hidden prompt])
  | Raises KeyboardInterrupt => (Raises KeyboardInterrupt, [Hidden prompt])
  | Raises k =>
      if is_Exception k then
        match is_jupyter with
        | Raises k' => (Raises k', [Hidden prompt])
        | Returns false => (Raises k, [Hidden prompt])
        | Returns true =>
            match import_ipython_getpass term with
            | Raises ImportError => last_resort prompt [Hidden prompt]
            | Raises k' => (Raises k', [Hidden prompt])
            | Returns _ =>
                match ipython_getpass term with
                | Returns password => (Returns password, [Hidden prompt; Hidden prompt])
                | Raises ImportError =>
                    last_resort prompt [Hidden prompt; Hidden prompt]
                | Raises k' => (Raises k', [Hidden prompt; Hidden prompt])
                end
            end
        end
      else (Raises k, [Hidden prompt])
  end.
End WithTerminal.

End Utils.

(** ** More vocabulary *)

(** The value of the last pair with key [k], if any. *)
Fixpoint last_value {V} (k : string) (pairs : list (string * V)) : option V :=
  match pairs with
  | [] => None
  | (k', v) :: rest =>
      match last_value k rest with
      | Some v' => Some v'
      | None => if String.eqb k k' then Some v else None
      end
  end.


(** The prompts among a list of events: whether the answer is hidden, and
    the prompt text. *)
Fixpoint prompts (es : list Event) : list (bool * string) :=
  match es with
  | [] => []
  | Prompt secret prompt :: es' => (secret, prompt) :: prompts es'
  | _ :: es' => prompts es'
  end.

(** The lines printed among a list of events. *)
Fixpoint prints (es : list Event) : list string :=
  match es with
  | [] => []
  | Print line :: es' => line :: prints es'
  | _ :: es' => prints es'
  end.

(** The handles the driver was asked to close. *)
Fixpoint closes (es : list Event) : list Handle :=
  match es with
  | [] => []
  | DriverClose conn :: es' => conn :: closes es'
  | _ :: es' => closes es'
  end.

(** No keyword that names a parameter of [SnowflakeConnection.__init__]
    is left in [**kwargs], and no keyword occurs twice. *)
Definition kwargs_unnamed (kwargs : Dict Value) : bool :=
  kwargs_bound kwargs
  && negb (dict_has "account" kwargs) && negb (dict_has "user" kwargs)
  && negb (dict_has "password" kwargs) && negb (dict_has "authenticator" kwargs).

(** A manager's methods that are not generators all fail with [e] and
    touch nothing. *)
Definition manager_refuses (env : Environment) (m : ConnectionManager.t) : Prop :=
  forall (sql : string) (chunk_size : option nat) (batch_size : nat)
         (kwargs : Dict Value) (w : World),
    ConnectionManager.query env m sql chunk_size kwargs w = (Raise not_connected, m, w)
    /\ ConnectionManager.query_batches m sql batch_size kwargs w = (Raise not_connected, m, w)
    /\ ConnectionManager.query_dict env m sql chunk_size kwargs w = (Raise not_connected, m, w)
    /\ ConnectionManager.query_dict_batches m sql batch_size kwargs w
       = (Raise not_connected, m, w)
    /\ ConnectionManager.execute env m sql kwargs w = (Raise not_connected, m, w)
    /\ ConnectionManager.fetch_one env m sql kwargs w = (Raise not_connected, m, w)
    /\ ConnectionManager.fetch_all env m sql kwargs w = (Raise not_connected, m, w).


(** A driver that answers every call. *)
Definition live_env : Environment :=
  mkEnv (fun n => Ok (100 + n))
        (fun _ => Ok (executed sample_descr sample_rows))
        (fun _ => Ok tt)
        (fun _ => Ok "alice"%string).

(** The user presses Ctrl-C during whatever call is under way. *)
Definition interrupt : Exception := Exc "KeyboardInterrupt" "".

Definition interrupted_env : Environment :=
  mkEnv (fun _ => Raise interrupt) (fun _ => Raise interrupt)
        (fun _ => Raise interrupt) (fun _ => Raise interrupt).


(** ** Arithmetic and list facts *)

Lemma ceil_div_0 k : 0 < k -> ceil_div 0 k = 0.
Proof.
  intros Hk. unfold ceil_div. apply Nat.div_small. lia.
Qed.

Lemma ceil_div_step n k :
  0 < k -> 0 < n -> ceil_div n k = S (ceil_div (n - k) k).
Proof.
  intros Hk Hn. unfold ceil_div.
  replace (n + k - 1) with ((n - 1) + 1 * k) by lia.
  rewrite Nat.div_add by lia.
  destruct (Nat.le_gt_cases k n) as [Hle | Hlt].
  - replace (n - k + k - 1) with (n - 1) by lia. lia.
  - replace (n - k + k - 1) with (k - 1) by lia.
    rewrite (Nat.div_small (n - 1)), (Nat.div_small (k - 1)) by lia. lia.
Qed.

Lemma ceil_div_pos n k : 0 < k -> 0 < n -> 0 < ceil_div n k.
Proof. intros Hk Hn. rewrite ceil_div_step by assumption. lia. Qed.

Lemma ceil_div_le n k : 0 < k -> ceil_div n k <= n.
Proof.
  intros Hk. induction n as [n IH] using lt_wf_ind.
  destruct n as [|n].
  - rewrite ceil_div_0 by assumption. lia.
  - rewrite ceil_div_step by lia.
    specialize (IH (S n - k)). lia.
Qed.

Lemma last_size_step n k : 0 < k -> k < n -> last_size (n - k) k = last_size n k.
Proof.
  intros Hk Hn. unfold last_size.
  assert (E : n mod k = (n - k) mod k).
  { replace n with ((n - k) + 1 * k) at 1 by lia. apply Nat.Div0.mod_add. }
  rewrite E. reflexivity.
Qed.

Lemma last_size_small n k : 0 < n -> n <= k -> last_size n k = n.
Proof.
  intros Hn Hk. unfold last_size.
  destruct (Nat.eq_dec n k) as [-> | Hne].
  - rewrite Nat.Div0.mod_same, Nat.eqb_refl. reflexivity.
  - rewrite Nat.mod_small by lia.
    destruct (Nat.eqb_spec n 0); [lia | reflexivity].
Qed.

Section Cut.
Variable A : Type.
Implicit Types l : list A.

Lemma cut_nil fuel k : cut fuel k (@nil A) = [].
Proof. destruct fuel; reflexivity. Qed.

Lemma cut_cons fuel k x l :
    cut (S fuel) k (x :: l) = firstn k (x :: l) :: cut fuel k (skipn k (x :: l)).
Proof. reflexivity. Qed.

Lemma skipn_shorter k x l : 0 < k -> length (skipn k (x :: l)) <= length l.
Proof.
    intros Hk. destruct k as [|k]; [lia|].
    simpl. rewrite length_skipn. lia.
Qed.

  (** More fuel than elements changes nothing. *)
Lemma cut_enough f1 f2 k l :
    0 < k -> length l <= f1 -> length l <= f2 -> cut f1 k l = cut f2 k l.
Proof.
    intros Hk. revert f2 l.
    induction f1 as [|f1 IH]; intros f2 l H1 H2.
    - destruct l; [rewrite !cut_nil; reflexivity | simpl in H1; lia].
    - destruct l as [|x l]; [rewrite !cut_nil; reflexivity|].
      destruct f2 as [|f2]; [simpl in H2; lia|].
      rewrite !cut_cons. f_equal.
      pose proof (skipn_shorter x l Hk). simpl in H1, H2.
      apply IH; lia.
Qed.

Lemma cut_fuel fuel k l :
    0 < k -> length l <= fuel -> cut fuel k l = chunked k l.
Proof. intros Hk Hl. unfold chunked. apply cut_enough; auto. Qed.

Lemma chunked_nil k : chunked k (@nil A) = [].
Proof. reflexivity. Qed.

Lemma chunked_cons k x l :
    0 < k ->
    chunked k (x :: l) = firstn k (x :: l) :: chunked k (skipn k (x :: l)).
Proof.
    intros Hk. unfold chunked at 1. simpl length. rewrite cut_cons.
    f_equal. apply cut_fuel; [assumption | apply skipn_shorter; assumption].
Qed.

  (** Induction along the chunks of a list. *)
Lemma chunk_ind k (Hk : 0 < k) (P : list A -> Prop) :
    P [] ->
    (forall x l, P (skipn k (x :: l)) -> P (x :: l)) ->
    forall l, P l.
Proof.
    intros Hnil Hcons l.
    induction l as [l IH] using (induction_ltof1 _ (@length A)).
    destruct l as [|x l]; [exact Hnil|].
    apply Hcons, IH. unfold ltof.
    pose proof (skipn_shorter x l Hk). simpl. lia.
Qed.

Lemma chunked_concat k l : 0 < k -> concat (chunked k l) = l.
Proof.
    intros Hk. induction l as [|x l IH] using (chunk_ind Hk); [reflexivity|].
    rewrite chunked_cons by assumption.
    simpl concat. rewrite IH. apply firstn_skipn.
Qed.

Lemma chunked_length k l :
    0 < k -> length (chunked k l) = ceil_div (length l) k.
Proof.
    intros Hk. induction l as [|x l IH] using (chunk_ind Hk).
    - simpl. rewrite ceil_div_0; auto.
    - rewrite chunked_cons by assumption.
      simpl length at 1. rewrite IH, length_skipn.
      symmetry. apply ceil_div_step; simpl; lia.
Qed.

  (** Every chunk but the last holds [k] elements; the last holds the rest. *)
Lemma chunked_sizes k l i :
    0 < k -> i < length (chunked k l) ->
    length (nth i (chunked k l) []) =
      if S i <? length (chunked k l) then k else last_size (length l) k.
Proof.
    intros Hk. revert i.
    induction l as [|x l IH] using (chunk_ind Hk); intros i Hi.
    - simpl in Hi. lia.
    - rewrite chunked_cons in * by assumption.
      set (rest := skipn k (x :: l)) in *.
      assert (Hrest : length rest = length (x :: l) - k)
        by (unfold rest; apply length_skipn).
      destruct i as [|i].
      + cbn [nth]. rewrite length_firstn.
        destruct rest as [|y rest'] eqn:Erest.
        * rewrite chunked_nil. cbn [length Nat.ltb Nat.leb].
          simpl length in Hrest.
          rewrite last_size_small by (simpl; lia). simpl length. lia.
        * rewrite chunked_cons by assumption. cbn [length Nat.ltb Nat.leb].
          simpl length in Hrest. simpl length. lia.
      + cbn [nth length] in *.
        rewrite IH by lia.
        assert (Hlen : 0 < length rest).
        { destruct rest; [rewrite chunked_nil in Hi; simpl in Hi; lia | simpl; lia]. }
        rewrite Hrest, last_size_step by lia.
        destruct (Nat.ltb_spec (S i) (length (chunked k rest)));
          destruct (Nat.ltb_spec (S (S i)) (S (length (chunked k rest))));
          try lia; reflexivity.
Qed.

Lemma chunked_nonempty k l : 0 < k -> Forall (fun ch => ch <> []) (chunked k l).
Proof.
    intros Hk. induction l as [|x l IH] using (chunk_ind Hk).
    - constructor.
    - rewrite chunked_cons by assumption. constructor; [|exact IH].
      destruct k; [lia | discriminate].
Qed.
End Cut.

(** ** The generators, pulled to exhaustion *)

Section BatchesFacts.
Variable B : Type.
Variable make : list string -> list Row -> B.

Lemma run_finished acts c : run make acts (Finished c) = ([], Finished c).
Proof.
    induction acts as [|a acts IH]; [reflexivity|].
    cbn [run]. destruct a; cbn [act next gen_close]; rewrite IH; reflexivity.
Qed.

Lemma pull_finished n c : pull make n (Finished c) = ([], Finished c).
Proof.
    unfold pull. induction n as [|n IH]; [reflexivity|].
    cbn [repeat run act next]. rewrite IH. reflexivity.
Qed.

Lemma pull_S n g :
    pull make (S n) g =
      let (out, g') := next make g in
      let (outs, g'') := pull make n g' in
      (match out with Some b => b :: outs | None => outs end, g'').
Proof. reflexivity. Qed.

Lemma pull_unstarted n c k :
    pull make (S n) (Unstarted c k) = pull make (S n) (Parked c (column_names c) 0 k).
Proof. reflexivity. Qed.

  (** Enough calls of [next()] exhaust the generator: it has yielded one
      batch per chunk of the rows that were pending, in order, and has
      closed its cursor. *)
Lemma pull_parked k names (Hk : 0 < k) :
    forall rows n c count,
      pending c = rows ->
      ceil_div (length rows) k < n ->
      pull make n (Parked c names count k) =
        (map (make names) (chunked k rows),
         Finished (Some (close (drained c (S (ceil_div (length rows) k)))))).
Proof.
    intros rows.
    induction rows as [|x l IH] using (chunk_ind Hk); intros n c count Hc Hn.
    - destruct n as [|n]; [lia|].
      rewrite pull_S. unfold next, resume, fetchmany.
      rewrite Hc, firstn_nil, skipn_nil, pull_finished.
      rewrite ceil_div_0 by assumption.
      unfold drained, close. cbn. rewrite Nat.add_1_r. reflexivity.
    - rewrite ceil_div_step in * by (simpl; lia).
      destruct n as [|n]; [lia|].
      rewrite pull_S. unfold next, resume, fetchmany.
      rewrite Hc.
      destruct k as [|k']; [lia|]. cbn [firstn].
      set (c' := mkCursor _ _ _ _).
      rewrite (IH n c' (S count)); [| reflexivity | rewrite length_skipn; lia].
      rewrite chunked_cons by lia. cbn [map firstn].
      rewrite length_skipn.
      f_equal. f_equal. f_equal.
      unfold drained, close, c'. cbn. f_equal. lia.
Qed.

Lemma pull_fresh descr rows k n :
    0 < k -> ceil_div (length rows) k < n ->
    pull make n (Unstarted (executed descr rows) k) =
      (map (make (map col_name descr)) (chunked k rows),
       Finished (Some (mkCursor descr [] (S (ceil_div (length rows) k)) 1))).
Proof.
    intros Hk Hn. destruct n as [|n]; [lia|].
    rewrite pull_unstarted.
    rewrite (@pull_parked k _ Hk rows) by (auto; lia).
    reflexivity.
Qed.
End BatchesFacts.

(** C1.  Over a cursor that delivers [N] rows and for a positive
    [batch_size] [k], a consumer that keeps calling [next()] receives from
    [fetch_pandas_batches] and from [fetch_dict_batches] exactly
    [ceil(N/k)] batches and then [StopIteration]; every batch but the last
    holds [k] rows, the last holds [N mod k] rows, or [k] when [k] divides
    [N]; and the batches laid end to end are the [N] rows in the order the
    cursor delivered them. *)
Theorem lazy_batches_partition :
  forall (descr : list ColumnMeta) (rows : list Row) (k n : nat),
    0 < k ->
    ceil_div (length rows) k < n ->
    let names := map col_name descr in
    let frames := fst (pull pandas_batch n (fetch_pandas_batches (executed descr rows) k)) in
    let dicts := fst (pull dict_batch n (fetch_dict_batches (executed descr rows) k)) in
    (length frames = ceil_div (length rows) k
     /\ (forall i, i < length frames ->
           length (df_rows (nth i frames (pd_DataFrame [] names))) =
             if S i <? length frames then k else last_size (length rows) k)
     /\ concat (map df_rows frames) = rows
     /\ length (concat (map df_rows frames)) = length rows)
    /\
    (length dicts = ceil_div (length rows) k
     /\ (forall i, i < length dicts ->
           length (nth i dicts []) =
             if S i <? length dicts then k else last_size (length rows) k)
     /\ concat dicts = map (row_dict names) rows
     /\ length (concat dicts) = length rows).
Proof.
  intros descr rows k n Hk Hn names frames dicts.
  unfold frames, dicts, fetch_pandas_batches, fetch_dict_batches.
  rewrite !pull_fresh by assumption. cbn [fst]. fold names.
  assert (Hconcat : concat (map df_rows (map (pandas_batch names) (chunked k rows))) = rows).
  { rewrite map_map. cbn [pandas_batch pd_DataFrame df_rows].
    rewrite map_id. apply chunked_concat; assumption. }
  assert (Hdict : concat (map (dict_batch names) (chunked k rows)) = map (row_dict names) rows).
  { unfold dict_batch. rewrite <- concat_map, chunked_concat by assumption. reflexivity. }
  rewrite !length_map, chunked_length by assumption.
  repeat split.
  - intros i Hi.
    rewrite <- (chunked_length rows Hk) in *.
    change (pd_DataFrame [] names) with (pandas_batch names []).
    rewrite map_nth. cbn [pandas_batch pd_DataFrame df_rows].
    apply chunked_sizes; assumption.
  - exact Hconcat.
  - rewrite Hconcat. reflexivity.
  - intros i Hi.
    rewrite <- (chunked_length rows Hk) in *.
    change (@nil (Dict Value)) with (dict_batch names []).
    rewrite map_nth. unfold dict_batch. rewrite length_map.
    apply chunked_sizes; assumption.
  - exact Hdict.
  - rewrite Hdict. apply length_map.
Qed.

(** ** The materialized fetches *)

Lemma fetch_loop_step A (body : A -> list Row -> Cursor -> A) size cursor acc :
  fetch_loop body size cursor acc =
    match fst (fetchmany size cursor) with
    | [] => (snd (fetchmany size cursor), acc)
    | rows =>
        fetch_loop body size (snd (fetchmany size cursor))
          (body acc rows (snd (fetchmany size cursor)))
    end.
Proof.
  funelim (fetch_loop body size cursor acc).
  - rewrite e. reflexivity.
  - rewrite e. reflexivity.
Qed.

(** The loop makes one [fetchmany] call per chunk and a last one that
    comes back empty; it folds the body over the chunks in order.  The
    body may read the cursor's description, which fetching leaves alone. *)
Lemma fetch_loop_chunks A (body : A -> list Row -> Cursor -> A)
      (step : A -> list Row -> A) descr k (Hk : 0 < k) :
  (forall acc rows cur, description cur = descr -> body acc rows cur = step acc rows) ->
  forall rows c acc,
    description c = descr ->
    pending c = rows ->
    fetch_loop body k c acc =
      (drained c (S (ceil_div (length rows) k)), fold_left step (chunked k rows) acc).
Proof.
  intros Hbody rows.
  induction rows as [|x l IH] using (chunk_ind Hk); intros c acc Hd Hc.
  - rewrite fetch_loop_step. unfold fetchmany. cbn [fst snd].
    rewrite Hc, firstn_nil, skipn_nil, ceil_div_0 by assumption.
    unfold drained. rewrite Nat.add_1_r. reflexivity.
  - rewrite fetch_loop_step. unfold fetchmany. cbn [fst snd].
    rewrite Hc.
    destruct k as [|k']; [lia|]. cbn [firstn].
    set (c' := mkCursor _ _ _ _).
    rewrite (IH c'); [| exact Hd | reflexivity].
    rewrite Hbody by exact Hd.
    rewrite chunked_cons by lia. cbn [fold_left firstn].
    rewrite (@ceil_div_step (length (x :: l))) by (simpl; lia).
    rewrite length_skipn.
    f_equal. unfold drained, c'. cbn. f_equal. lia.
Qed.

Lemma fold_left_snoc A B (f : B -> A) (l : list B) (acc : list A) :
  fold_left (fun a b => a ++ [f b]) l acc = acc ++ map f l.
Proof.
  revert acc. induction l as [|b l IH]; intros acc; cbn.
  - rewrite app_nil_r. reflexivity.
  - rewrite IH, <- app_assoc. reflexivity.
Qed.

Lemma fold_left_extend A B (f : B -> list A) (l : list B) (acc : list A) :
  fold_left (fun a b => a ++ f b) l acc = acc ++ concat (map f l).
Proof.
  revert acc. induction l as [|b l IH]; intros acc; cbn.
  - rewrite app_nil_r. reflexivity.
  - rewrite IH, <- app_assoc. reflexivity.
Qed.

Lemma concat_same_frames names (chunks : list (list Row)) :
  concat (map df_rows (map (fun rows => pd_DataFrame rows names) chunks)) = concat chunks.
Proof. rewrite map_map. cbn. rewrite map_id. reflexivity. Qed.

(** [fetch_dict] with a positive [chunk_size]: every row, as a dictionary
    over the column names, in delivery order; [ceil(N/k) + 1] calls of
    [fetchmany], the last of which came back empty; the cursor closed. *)
Lemma fetch_dict_chunked (c : Cursor) (k : nat) :
  0 < k ->
  fetch_dict c (Some k) =
    (Ok (map (row_dict (column_names c)) (pending c)),
     close (drained c (S (ceil_div (length (pending c)) k)))).
Proof.
  intros Hk. unfold fetch_dict.
  destruct k as [|k']; [lia|]. cbn [chunking].
  rewrite (@fetch_loop_chunks _ _
             (fun results rows => results ++ map (row_dict (column_names c)) rows)
             (description c) (S k') Hk) with (rows := pending c); auto.
  rewrite fold_left_extend. cbn [app].
  rewrite <- concat_map, chunked_concat by assumption. reflexivity.
Qed.

(** [fetch_pandas] with a positive [chunk_size]: the chunks it hands to
    [pd.concat] are the chunks of the pending rows, one frame each. *)
Lemma fetch_pandas_chunked (c : Cursor) (k : nat) :
  0 < k ->
  fetch_pandas c (Some k) =
    (pd_concat (map (fun rows => pd_DataFrame rows (column_names c))
                    (chunked k (pending c))),
     close (drained c (S (ceil_div (length (pending c)) k)))).
Proof.
  intros Hk. unfold fetch_pandas.
  destruct k as [|k']; [lia|]. cbn [chunking].
  rewrite (@fetch_loop_chunks _ _
             (fun chunks rows => chunks ++ [pd_DataFrame rows (column_names c)])
             (description c) (S k') Hk) with (rows := pending c); auto.
  - rewrite fold_left_snoc. reflexivity.
  - intros acc rows cur Hd. unfold column_names. rewrite Hd. reflexivity.
Qed.

(** Over at least one row the chunked [fetch_pandas] returns one frame
    holding every row in delivery order. *)
Lemma fetch_pandas_nonempty (c : Cursor) (k : nat) :
  0 < k -> pending c <> [] ->
  fetch_pandas c (Some k) =
    (Ok (mkDataFrame (column_names c) (pending c)),
     close (drained c (S (ceil_div (length (pending c)) k)))).
Proof.
  intros Hk Hne. rewrite fetch_pandas_chunked by assumption. f_equal.
  destruct (pending c) as [|x l] eqn:E; [congruence|].
  rewrite chunked_cons by assumption. cbn [map pd_concat pd_DataFrame df_columns].
  f_equal. f_equal.
  change (concat (map df_rows
            (map (fun rows => pd_DataFrame rows (column_names c))
                 (firstn k (x :: l) :: chunked k (skipn k (x :: l))))) = x :: l).
  rewrite concat_same_frames, <- chunked_cons, chunked_concat by assumption.
  reflexivity.
Qed.

(** Without a [chunk_size] both fetches return every row from one bulk
    call, also when there is none. *)
Lemma fetch_unchunked (c : Cursor) :
  fst (fetch_pandas c None) = Ok (mkDataFrame (column_names c) (pending c))
  /\ fst (fetch_dict c None) = Ok (map (row_dict (column_names c)) (pending c)).
Proof. split; reflexivity. Qed.

(** C2, at the input where the code departs from it.  With a positive
    [chunk_size] and a result of no rows, [fetch_pandas] collects no chunk,
    [pd.concat] is called with the empty list and raises, and the
    [ValueError] leaves the method (after the cursor was closed) instead of
    a frame of zero rows; [fetch_dict] on the same cursor returns the empty
    list. *)
Theorem fetch_pandas_no_rows_raises :
  forall (descr : list ColumnMeta) (k : nat),
    fetch_pandas (executed descr []) (Some (S k)) =
      (Raise no_objects, mkCursor descr [] 1 1)
    /\ fetch_dict (executed descr []) (Some (S k)) =
         (Ok [], mkCursor descr [] 1 1).
Proof.
  intros descr k. split.
  - rewrite fetch_pandas_chunked by lia. cbn [executed pending].
    rewrite chunked_nil. cbn [map pd_concat length].
    rewrite ceil_div_0 by lia. reflexivity.
  - rewrite fetch_dict_chunked by lia. cbn [executed pending map length].
    rewrite ceil_div_0 by lia. reflexivity.
Qed.

(** The part of C2 the code meets: for a positive [chunk_size],
    [fetch_dict] returns the [N] rows in delivery order for every [N],
    [fetch_pandas] does so for every [N >= 1], the rows reach them in
    [ceil(N/chunk_size)] non-empty chunks, and the cursor is asked
    [ceil(N/chunk_size) + 1] times, the last answer being empty. *)
Lemma materialized_fetch_rows (descr : list ColumnMeta) (rows : list Row) (k : nat) :
  0 < k ->
  let names := map col_name descr in
  let final := mkCursor descr [] (S (ceil_div (length rows) k)) 1 in
  fetch_dict (executed descr rows) (Some k) = (Ok (map (row_dict names) rows), final)
  /\ (rows <> [] ->
      fetch_pandas (executed descr rows) (Some k) = (Ok (mkDataFrame names rows), final))
  /\ length (chunked k rows) = ceil_div (length rows) k
  /\ concat (chunked k rows) = rows.
Proof.
  intros Hk names final. repeat split.
  - rewrite fetch_dict_chunked by assumption. reflexivity.
  - intros Hne. rewrite fetch_pandas_nonempty by assumption. reflexivity.
  - apply chunked_length; assumption.
  - apply chunked_concat; assumption.
Qed.

(** ** The cursor's lifetime inside a generator *)

Lemma started_inv names g : started names g -> gen_inv names g.
Proof. destruct g as [c k | c carried count k | [c|]]; cbn; tauto. Qed.

Lemma started_open names g : started names g -> open_while_parked g = true.
Proof.
  destruct g as [c k | c carried count k | [c|]]; cbn; try tauto.
  intros [-> _]. reflexivity.
Qed.

Lemma inv_open names g : gen_inv names g -> open_while_parked g = true.
Proof.
  destruct g as [c k | c carried count k | [c|]]; cbn; try tauto.
  intros [-> _]. reflexivity.
Qed.

Lemma started_abandoned names g : started names g -> closed_once (gen_close g) = true.
Proof.
  destruct g as [c k | c carried count k | [c|]]; cbn; try tauto.
  - intros [-> _]. reflexivity.
  - intros ->. reflexivity.
Qed.
Section Lifetime.
Variable B : Type.
Variable make : list string -> list Row -> B.
Variable names : list string.

Lemma resume_started c count k :
  close_calls c = 0 -> started names (snd (resume make c names count k)).
Proof.
  intros Hc. unfold resume, fetchmany.
  destruct (firstn k (pending c)); cbn; auto.
Qed.


Lemma act_inv a g : gen_inv names g -> gen_inv names (snd (act make a g)).
Proof.
  destruct a, g as [c k | c carried count k | [c|]];
    cbn [act next gen_close snd gen_inv]; try tauto.
  - intros [Hc Hn]. rewrite Hn. apply started_inv, resume_started, Hc.
  - intros [Hc ->]. apply started_inv, resume_started, Hc.
  - intros [Hc _]. cbn. rewrite Hc. reflexivity.
Qed.

Lemma act_started a g : started names g -> started names (snd (act make a g)).
Proof.
  destruct a, g as [c k | c carried count k | [c|]];
    cbn [act next gen_close snd started]; try tauto.
  - intros [Hc ->]. apply resume_started, Hc.
  - intros [Hc _]. cbn. rewrite Hc. reflexivity.
Qed.


Lemma run_cons a acts g :
  run make (a :: acts) g =
    (match fst (act make a g) with
     | Some b => b :: fst (run make acts (snd (act make a g)))
     | None => fst (run make acts (snd (act make a g)))
     end,
     snd (run make acts (snd (act make a g)))).
Proof.
  cbn [run]. destruct (act make a g) as [out g'] eqn:E1. cbn [fst snd].
  destruct (run make acts g') as [outs g''] eqn:E2. reflexivity.
Qed.

Lemma run_app acts1 acts2 g :
  snd (run make (acts1 ++ acts2) g) = snd (run make acts2 (snd (run make acts1 g))).
Proof.
  revert g. induction acts1 as [|a acts1 IH]; intros g; [reflexivity|].
  rewrite <- app_comm_cons, !run_cons. cbn [snd]. apply IH.
Qed.

Lemma run_inv acts g : gen_inv names g -> gen_inv names (snd (run make acts g)).
Proof.
  revert g. induction acts as [|a acts IH]; intros g Hg; [exact Hg|].
  rewrite run_cons. cbn [snd]. apply IH, act_inv, Hg.
Qed.

Lemma run_started acts g : started names g -> started names (snd (run make acts g)).
Proof.
  revert g. induction acts as [|a acts IH]; intros g Hg; [exact Hg|].
  rewrite run_cons. cbn [snd]. apply IH, act_started, Hg.
Qed.


End Lifetime.

Lemma fresh_inv descr rows k :
  gen_inv (map col_name descr) (Unstarted (executed descr rows) k).
Proof. split; reflexivity. Qed.

Lemma first_pull_started B (make : list string -> list Row -> B) descr rows k :
  started (map col_name descr) (snd (act make (@Pull) (Unstarted (executed descr rows) k))).
Proof.
  cbn [act next].
  change (column_names (executed descr rows)) with (map col_name descr).
  apply resume_started. reflexivity.
Qed.

(** However large the batch size, [length rows + 1] calls of [next()]
    exhaust the generator. *)
Lemma pull_exhausts B (make : list string -> list Row -> B) descr rows k :
  closed_once (snd (pull make (S (length rows)) (Unstarted (executed descr rows) k))) = true.
Proof.
  destruct k as [|k].
  - rewrite pull_S. cbn. rewrite pull_finished. reflexivity.
  - rewrite pull_fresh; [reflexivity | lia |].
    pose proof (@ceil_div_le (length rows) (S k)). lia.
Qed.

(** C3.  Whatever the consumer does with either generator (pulls, an
    abandonment at any point, further pulls after it), and whatever the
    driver does to the cursor's description meanwhile: a generator parked
    at its [yield] holds a cursor that was not closed; once iteration has
    begun, abandoning it leaves the cursor closed exactly once, and nothing
    after that closes it again; and a consumer that pulls until
    [StopIteration] leaves the cursor closed exactly once. *)
Theorem cursor_closed_exactly_once :
  forall (descr : list ColumnMeta) (rows : list Row) (k : nat)
         (acts more : list Action),
    let frames := fetch_pandas_batches (executed descr rows) k in
    let dicts := fetch_dict_batches (executed descr rows) k in
    (open_while_parked (snd (run pandas_batch acts frames)) = true
     /\ closed_once (snd (run pandas_batch (Pull :: acts ++ Abandon :: more) frames)) = true
     /\ closed_once (snd (pull pandas_batch (S (length rows)) frames)) = true)
    /\
    (open_while_parked (snd (run dict_batch acts dicts)) = true
     /\ closed_once (snd (run dict_batch (Pull :: acts ++ Abandon :: more) dicts)) = true
     /\ closed_once (snd (pull dict_batch (S (length rows)) dicts)) = true).
Proof.
  intros descr rows k acts more frames dicts.
  assert (Hgen : forall B (make : list string -> list Row -> B),
             open_while_parked (snd (run make acts (Unstarted (executed descr rows) k))) = true
             /\ closed_once (snd (run make (Pull :: acts ++ Abandon :: more)
                                      (Unstarted (executed descr rows) k))) = true
             /\ closed_once (snd (pull make (S (length rows))
                                       (Unstarted (executed descr rows) k))) = true).
  { intros B make. repeat split.
    - apply inv_open with (names := map col_name descr).
      apply run_inv, fresh_inv.
    - rewrite run_cons. cbn [snd]. rewrite run_app, run_cons. cbn [snd act].
      pose proof (@run_started _ make _ acts _
                    (first_pull_started make descr rows k)) as Hs.
      pose proof (@started_abandoned _ _ Hs) as Hc.
      destruct (gen_close _) as [| | [c|]] in Hc |- *; try discriminate.
      rewrite run_finished. exact Hc.
    - apply pull_exhausts. }
  split; apply Hgen.
Qed.


(** The driver rewrites the description between the first and the second
    batch; both batches carry the names read at the start. *)
Example redescribed_cursor_keeps_names :
  map df_columns
      (fst (run pandas_batch [Pull; Redescribe [Column "X" 0]; Pull]
                (fetch_pandas_batches (executed sample_descr sample_rows) 2)))
  = [["ID"; "NAME"]; ["ID"; "NAME"]]
  /\ option_map column_names
       (match snd (run pandas_batch [Pull; Redescribe [Column "X" 0]; Pull]
                       (fetch_pandas_batches (executed sample_descr sample_rows) 2)) with
        | Parked c _ _ _ => Some c
        | _ => None
        end) = Some ["X"].
Proof. split; reflexivity. Qed.

(** ** The session *)

Import SnowflakeConnection.

Lemma since_app (w : World) (t : nat) (l : list Event) :
  since w (mkWorld t (events w ++ l)) = l.
Proof.
  unfold since. cbn [events].
  rewrite skipn_app, skipn_all, Nat.sub_diag. reflexivity.
Qed.

Lemma since_refl (w : World) : since w w = [].
Proof. unfold since. apply skipn_all. Qed.

(** Bring the events of a world reached from [w] into the form
    [events w ++ l] and read [l] off. *)
Ltac trace :=
  unfold logger, print, emit, call;
  cbn [events tick fst snd];
  repeat rewrite <- app_assoc;
  cbn [app];
  repeat rewrite since_app;
  cbn [executes opens logs].

Lemma params_ignore_handle (s : t) (c : option Handle) (b : bool) :
  connection_params (set_handle s c b) = connection_params s.
Proof. reflexivity. Qed.

(** What [open] does, by the driver's answer. *)
Lemma open_spec (env : Environment) (s : t) (w : World) :
  let '(r, s', w') := open env s w in
  opens (since w w') = [connection_params s]
  /\ executes (since w w') = []
  /\ r = on_connect env (tick w)
  /\ tick w' = S (tick w)
  /\ match r with
     | Ok conn => _connection s' = Some conn /\ _is_connected s' = true
     | Raise e => if derives_Exception e then disconnected s' else s' = s
     end.
Proof.
  unfold open, call, disconnected. cbn [logger emit tick events].
  destruct (on_connect env (tick w)) as [conn | e];
    [| destruct (derives_Exception e) eqn:He];
    trace; rewrite ?He; repeat split; reflexivity.
Qed.

(** C5 fails as stated: the probe on the cached handle is stopped by a
    [KeyboardInterrupt]; [connect] raises it, keeps the handle and asks the
    driver for no new connection. *)
Lemma interrupted_probe_not_reopened :
  let '(r, s', w') := connect interrupted_env sample_session fresh_world in
  on_execute interrupted_env (tick fresh_world) = Raise interrupt
  /\ r = Raise interrupt
  /\ _connection s' = Some 7
  /\ opens (since fresh_world w') = []
  /\ opens (since fresh_world w') <> [connection_params sample_session].
Proof. cbn. repeat split. discriminate. Qed.

(** C5, amended.  When [connect] finds a cached handle it first runs
    [SELECT 1] on it.  If that succeeds the same handle is returned, the
    session is unchanged and the driver is not asked for a connection.  If
    it fails with an error derived from [Exception], a warning is logged,
    the handle is dropped and the driver is asked exactly once for a new
    connection with the parameters stored in the session; a query made
    through [execute_query] runs on the new handle after that, or does not
    run when the reopening fails.  If the probe is stopped by anything else
    (a [KeyboardInterrupt], a [SystemExit]), that is raised, the session
    keeps its handle and nothing is reopened. *)
Theorem cached_handle_probed_then_reused_or_reopened :
  forall (env : Environment) (s : t) (w : World) (conn : Handle)
         (query : string) (kwargs : Dict Value),
    _connection s = Some conn ->
    _is_connected s = true ->
    let '(r, s', w') := connect env s w in
    let '(q, _, wq) := execute_query env s query kwargs w in
    hd_error (since w w') = Some (DriverExecute conn "SELECT 1" [])
    /\ executes (since w w') = [(conn, "SELECT 1")]
    /\ match on_execute env (tick w) with
       | Ok _ =>
           r = Ok conn /\ s' = s /\ opens (since w w') = []
           /\ executes (since w wq) = [(conn, "SELECT 1"); (conn, query)]
       | Raise dead =>
           if derives_Exception dead then
             opens (since w w') = [connection_params s]
             /\ hd_error (logs (since w w')) =
                  Some (WARNING, "Cached connection is dead, reconnecting...")
             /\ match on_connect env (S (tick w)) with
                | Ok fresh =>
                    r = Ok fresh
                    /\ _connection s' = Some fresh /\ _is_connected s' = true
                    /\ executes (since w wq) = [(conn, "SELECT 1"); (fresh, query)]
                | Raise e =>
                    r = Raise e /\ disconnected s'
                    /\ q = Raise e
                    /\ executes (since w wq) = [(conn, "SELECT 1")]
                end
           else
             r = Raise dead /\ s' = s /\ opens (since w w') = []
             /\ q = Raise dead
             /\ executes (since w wq) = [(conn, "SELECT 1")]
       end.
Proof.
  intros env s w conn query kwargs Hconn Hflag.
  unfold execute_query, get_connection, connect.
  rewrite Hconn, Hflag. unfold call. cbn [fst snd tick events].
  destruct (on_execute env (tick w)) as [c | dead].
  - destruct (on_execute env (S (tick w))); trace; repeat split; reflexivity.
  - destruct (derives_Exception dead).
    + unfold open, call, disconnected. cbn [logger emit tick events].
      destruct (on_connect env (S (tick w))) as [fresh | e'].
      * destruct (on_execute env (S (S (tick w)))); trace; repeat split; reflexivity.
      * destruct (derives_Exception e'); trace; repeat split; reflexivity.
    + trace; repeat split; reflexivity.
Qed.

(** C6 fails as stated: [close()] is stopped by a [KeyboardInterrupt],
    and [disconnect] raises it. *)
Lemma interrupted_disconnect_raises :
  let '(r, s', w') := disconnect interrupted_env sample_session fresh_world in
  r = Raise interrupt
  /\ is_raise r = true
  /\ logs (since fresh_world w') = [].
Proof. cbn. repeat split. Qed.

(** C6, amended.  An error of the driver's [close] that derives from
    [Exception] does not leave [disconnect]: it is logged as a warning and
    [disconnect] returns normally.  Anything else [close] raises (a
    [KeyboardInterrupt], a [SystemExit]) is raised by [disconnect], nothing
    being logged.  In every case the session holds no handle afterwards, a
    second [disconnect] does nothing and returns normally, and the next
    [connect] asks the driver for a new connection without probing
    anything.  The facade's [disconnect] raises only what the session's
    does, clears the global when it returns, and returns normally with the
    global cleared when called again. *)
Theorem disconnect_swallows_driver_errors :
  forall (env : Environment) (s : t) (w : World) (p : Facade.Process),
    (let '(r, s', w') := disconnect env s w in
     _connection s' = None
     /\ match _connection s, on_close env (tick w) with
        | Some _, Raise e =>
            if derives_Exception e then
              r = Ok tt
              /\ logs (since w w') =
                   [(WARNING, ("Error during disconnect: " ++ exc_msg e)%string)]
            else r = Raise e /\ logs (since w w') = []
        | Some _, Ok _ =>
            r = Ok tt /\ logs (since w w') = [(INFO, "Disconnected from Snowflake")]
        | None, _ => r = Ok tt /\ since w w' = []
        end
     /\ disconnect env s' w' = (Ok tt, s', w')
     /\ (let '(_, _, w'') := connect env s' w' in
         opens (since w' w'') = [connection_params s]
         /\ executes (since w' w'') = []))
    /\
    (let '(r, p') := Facade.disconnect env p in
     match r with
     | Ok _ => Facade._connection_manager p' = None
     | Raise e => derives_Exception e = false
     end
     /\ fst (Facade.disconnect env p') = Ok tt
     /\ Facade._connection_manager (snd (Facade.disconnect env p')) = None).
Proof.
  intros env s w p. split.
  - assert (Hnext : forall s0 w0,
               _connection s0 = None ->
               connection_params s0 = connection_params s ->
               disconnect env s0 w0 = (Ok tt, s0, w0)
               /\ (let '(_, _, w'') := connect env s0 w0 in
                   opens (since w0 w'') = [connection_params s]
                   /\ executes (since w0 w'') = [])).
    { intros s0 w0 Hnone Hp. split.
      - unfold disconnect. rewrite Hnone. reflexivity.
      - unfold connect. rewrite Hnone.
        pose proof (open_spec env s0 w0) as H. rewrite Hp in H.
        destruct (_is_connected s0);
          destruct (open env s0 w0) as [[r0 s0'] w0']; tauto. }
    unfold disconnect.
    destruct (_connection s) as [conn|] eqn:Hconn.
    + unfold call. cbn [fst snd tick events].
      destruct (on_close env (tick w)) as [[] | e];
        [| destruct (derives_Exception e)];
        (split; [reflexivity |]);
        (split; [trace; split; reflexivity |]);
        apply Hnext; reflexivity.
    + split; [exact Hconn |].
      split; [split; [reflexivity | apply since_refl] |].
      apply Hnext; [exact Hconn | reflexivity].
  - destruct p as [[[[c|] retr]|] w0]; cbn; auto.
    unfold disconnect.
    destruct (_connection c) as [conn|]; cbn; auto.
    destruct (on_close env (tick w0)) as [[]|e]; cbn; auto.
    destruct (derives_Exception e) eqn:He; cbn; auto.
Qed.

(** C9.  The log records [connect] and [disconnect] produce are the same
    for any two passwords, the answers of the driver being the same: the
    password reaches the driver and nothing else. *)
Theorem logs_independent_of_password :
  forall (env : Environment) (s : t) (w : World) (p1 p2 : string),
    (let '(r1, _, w1) := connect env (set_password s p1) w in
     let '(r2, _, w2) := connect env (set_password s p2) w in
     logs (since w w1) = logs (since w w2) /\ r1 = r2)
    /\
    (let '(r1, _, w1) := disconnect env (set_password s p1) w in
     let '(r2, _, w2) := disconnect env (set_password s p2) w in
     logs (since w w1) = logs (since w w2) /\ r1 = r2).
Proof.
  intros env s w p1 p2. split.
  - unfold connect, open, call, logger, emit.
    cbn [set_password _is_connected _connection account user tick events fst snd].
    destruct (_is_connected s), (_connection s) as [conn|];
      repeat match goal with
             | |- context [on_execute env ?t] =>
                 let e := fresh "e" in
                 destruct (on_execute env t) as [? | e];
                 [| destruct (derives_Exception e)];
                 cbn [tick events fst snd]
             | |- context [on_connect env ?t] =>
                 let e := fresh "e" in
                 destruct (on_connect env t) as [? | e];
                 [| destruct (derives_Exception e)];
                 cbn [tick events fst snd]
             end;
      trace; split; reflexivity.
  - unfold disconnect. cbn [set_password _connection].
    destruct (_connection s) as [conn|].
    + unfold call. cbn [fst snd tick events].
      destruct (on_close env (tick w)) as [[]|e];
        [| destruct (derives_Exception e)]; trace; split; reflexivity.
    + rewrite since_refl. split; reflexivity.
Qed.

(** The password is among the parameters the driver receives. *)
Example password_reaches_driver :
  let '(_, _, w') := connect sample_env sample_session fresh_world in
  map (dict_get "password") (opens (events w')) = [Some (VStr "s3cret")]
  /\ logs (events w') =
       [(WARNING, "Cached connection is dead, reconnecting...");
        (INFO, "Connecting to Snowflake account: acct as user: alice");
        (INFO, "Successfully connected to Snowflake")].
Proof. split; reflexivity. Qed.

(** What [connect] leaves behind, whatever it started from. *)
Lemma connect_outcome (env : Environment) (s : t) (w : World) :
  let '(r, s', _) := connect env s w in
  match r with
  | Ok conn => _connection s' = Some conn /\ _is_connected s' = true
  | Raise e =>
      if derives_Exception e then disconnected s'
      else s' = s \/ disconnected s'
  end.
Proof.
  unfold connect.
  assert (Hopen : forall s0 w0,
             s0 = s \/ disconnected s0 ->
             let '(r, s', _) := open env s0 w0 in
             match r with
             | Ok conn => _connection s' = Some conn /\ _is_connected s' = true
             | Raise e =>
                 if derives_Exception e then disconnected s'
                 else s' = s \/ disconnected s'
             end).
  { intros s0 w0 Hs0. pose proof (open_spec env s0 w0) as H.
    destruct (open env s0 w0) as [[[conn|e] s'] w']; [tauto|].
    destruct H as (_ & _ & _ & _ & H).
    destruct (derives_Exception e); [exact H|].
    subst s'. exact Hs0. }
  destruct (_is_connected s) eqn:Hf; [destruct (_connection s) as [conn|] eqn:Hc|];
    try (apply Hopen; left; reflexivity).
  destruct (call (on_execute env) (DriverExecute conn "SELECT 1" []) w) as [[c|e] w1].
  - auto.
  - destruct (derives_Exception e) eqn:He.
    + assert (Hd : disconnected (set_handle s None false)) by (split; reflexivity).
      pose proof (open_spec env (set_handle s None false)
                    (logger WARNING "Cached connection is dead, reconnecting..." w1)) as H.
      destruct (open env _ _) as [[[conn'|e'] s'] w']; [tauto|].
      destruct H as (_ & _ & _ & _ & H).
      destruct (derives_Exception e'); [exact H|].
      subst s'. right. exact Hd.
    + rewrite He. left. reflexivity.
Qed.

(** A session that holds nothing holds nothing after a [connect] that
    raised, whatever was raised. *)
Lemma connect_outcome_fresh (env : Environment) (s : t) (w : World) :
  disconnected s ->
  let '(r, s', _) := connect env s w in
  match r with
  | Ok conn => _connection s' = Some conn /\ _is_connected s' = true
  | Raise _ => disconnected s'
  end.
Proof.
  intros Hs. pose proof (connect_outcome env s w) as H.
  destruct (connect env s w) as [[[conn|e] s'] w']; [exact H|].
  destruct (derives_Exception e); [exact H|].
  destruct H as [-> | H]; assumption.
Qed.

(** The class assigns the handle and the flag together, so a handle is
    never held with the flag cleared either: a new session has neither, and
    [connect], [disconnect] and [execute_query] leave both or none. *)
Lemma handle_comes_with_flag (env : Environment) (s : t) (w : World)
      (query : string) (kwargs : Dict Value) :
  handle_needs_flag s = true ->
  handle_needs_flag (snd (fst (connect env s w))) = true
  /\ handle_needs_flag (snd (fst (disconnect env s w))) = true
  /\ handle_needs_flag (snd (fst (execute_query env s query kwargs w))) = true.
Proof.
  intros Hinv.
  assert (Hconnect : handle_needs_flag (snd (fst (connect env s w))) = true).
  { pose proof (connect_outcome env s w) as H.
    destruct (connect env s w) as [[[conn|e] s'] w']; cbn [fst snd].
    - unfold handle_needs_flag. destruct H as [-> ->]. reflexivity.
    - assert (Hcase : s' = s \/ disconnected s')
        by (destruct (derives_Exception e); tauto).
      destruct Hcase as [-> | [H1 H2]]; [exact Hinv|].
      unfold handle_needs_flag. rewrite H1, H2. reflexivity. }
  split; [exact Hconnect | split].
  - unfold disconnect. destruct (_connection s) as [conn|] eqn:Hc.
    + destruct (call (on_close env) (DriverClose conn) w) as [[[]|e] w'];
        [| destruct (derives_Exception e)]; reflexivity.
    + cbn [fst snd]. exact Hinv.
  - unfold execute_query, get_connection.
    destruct (connect env s w) as [[[conn|e] s'] w']; cbn [fst snd] in *.
    + destruct (call (on_execute env) (DriverExecute conn query kwargs) w').
      exact Hconnect.
    + exact Hconnect.
Qed.

(** C10 fails as stated: with a cached handle and a probe stopped by a
    [KeyboardInterrupt], [connect] fails and the session still holds its
    handle with the flag set. *)
Lemma interrupted_connect_stays_connected :
  let '(r, s', _) := connect interrupted_env sample_session fresh_world in
  is_raise r = true
  /\ _connection s' = Some 7
  /\ _is_connected s' = true
  /\ ~ disconnected s'.
Proof.
  cbn. repeat split. intros [H _]. discriminate H.
Qed.

(** C10, amended.  When [connect] raises an error derived from
    [Exception], the session is left with no handle and with the connected
    flag cleared; when it raises anything else, the session is as it was
    before the call or holds nothing; when it returns it holds the returned
    handle with the flag set.  The flag is never set without a handle: a
    new session satisfies this, and [connect], [disconnect] and
    [execute_query] keep it on every path; after [disconnect] the session
    is disconnected, whether it returned or raised. *)
Theorem connect_failure_clears_session :
  forall (env : Environment) (s : t) (w : World)
         (query : string) (kwargs : Dict Value),
    flag_needs_handle s = true ->
    (let '(r, s', _) := connect env s w in
     match r with
     | Ok conn => _connection s' = Some conn /\ _is_connected s' = true
     | Raise e =>
         if derives_Exception e then disconnected s'
         else s' = s \/ disconnected s'
     end
     /\ flag_needs_handle s' = true)
    /\ (let '(_, s', _) := disconnect env s w in
        disconnected s' /\ flag_needs_handle s' = true)
    /\ (let '(_, s', _) := execute_query env s query kwargs w in
        flag_needs_handle s' = true)
    /\ (forall account user password warehouse database schema role authenticator extra,
          flag_needs_handle
            (init account user password warehouse database schema role authenticator extra)
          = true).
Proof.
  intros env s w query kwargs Hinv.
  assert (Hconnect : forall w0,
             let '(r, s', _) := connect env s w0 in
             match r with
             | Ok conn => _connection s' = Some conn /\ _is_connected s' = true
             | Raise e =>
                 if derives_Exception e then disconnected s'
                 else s' = s \/ disconnected s'
             end
             /\ flag_needs_handle s' = true).
  { intros w0. pose proof (connect_outcome env s w0) as H.
    destruct (connect env s w0) as [[r s'] w'].
    split; [exact H|].
    destruct r as [conn|e].
    - unfold flag_needs_handle. destruct H as [-> ->]. reflexivity.
    - assert (Hcase : s' = s \/ disconnected s')
        by (destruct (derives_Exception e); tauto).
      destruct Hcase as [-> | [H1 H2]]; [exact Hinv|].
      unfold flag_needs_handle. rewrite H1, H2. reflexivity. }
  split; [| split; [| split]].
  - apply Hconnect.
  - unfold disconnect.
    destruct (_connection s) as [conn|] eqn:Hc.
    + destruct (call (on_close env) (DriverClose conn) w) as [[[]|e] w'];
        [| destruct (derives_Exception e)]; repeat split.
    + unfold flag_needs_handle, disconnected in *. rewrite Hc in *.
      destruct (_is_connected s); [discriminate | auto].
  - unfold execute_query, get_connection.
    specialize (Hconnect w). destruct (connect env s w) as [[[conn|e] s'] w'].
    + destruct (call (on_execute env) (DriverExecute conn query kwargs) w'). tauto.
    + tauto.
  - reflexivity.
Qed.

(** ** The parameters sent to the driver *)

Section DictFacts.
Variable V : Type.
Implicit Types d e : Dict V.

Lemma dict_get_set_same k v d : dict_get k (dict_set k v d) = Some v.
Proof.
  induction d as [|[k' v'] d IH]; cbn.
  - rewrite String.eqb_refl. reflexivity.
  - destruct (String.eqb k k') eqn:E; cbn; rewrite ?E, ?String.eqb_refl; auto.
Qed.

Lemma dict_get_set_other k k' v d :
  String.eqb k k' = false -> dict_get k (dict_set k' v d) = dict_get k d.
Proof.
  intros Hne. induction d as [|[k'' v''] d IH]; cbn.
  - rewrite Hne. reflexivity.
  - destruct (String.eqb k' k'') eqn:E; cbn.
    + apply String.eqb_eq in E. subst k''. rewrite Hne. reflexivity.
    + rewrite IH. reflexivity.
Qed.

Lemma dict_get_update_absent k d e :
  dict_get k e = None -> dict_get k (dict_update d e) = dict_get k d.
Proof.
  unfold dict_update. revert d.
  induction e as [|[k' v'] e IH]; intros d He; [reflexivity|].
  cbn in *. destruct (String.eqb k k') eqn:E; [discriminate|].
  rewrite IH by assumption. apply dict_get_set_other, E.
Qed.
End DictFacts.

Lemma add_if_same key field params :
  dict_get key (add_if key field params) =
    if truthy field then option_map VStr field else dict_get key params.
Proof.
  unfold add_if. destruct field as [v|]; [|reflexivity].
  destruct (truthy (Some v)); [apply dict_get_set_same | reflexivity].
Qed.

Lemma add_if_other key key' field params :
  String.eqb key key' = false ->
  dict_get key (add_if key' field params) = dict_get key params.
Proof.
  intros Hne. unfold add_if. destruct field as [v|]; [|reflexivity].
  destruct (truthy (Some v)); [apply dict_get_set_other, Hne | reflexivity].
Qed.

Lemma dict_has_false V key (d : Dict V) : dict_has key d = false -> dict_get key d = None.
Proof. unfold dict_has. destruct (dict_get key d); [discriminate | reflexivity]. Qed.

(** Every driver connection [connect] attempts gets the dictionary built
    from the session's fields. *)
Lemma connect_sends_params (env : Environment) (s : t) (w : World) :
  let '(_, _, w') := connect env s w in
  Forall (fun params => params = connection_params s) (opens (since w w')).
Proof.
  assert (Hopens : forall a b, opens (a ++ b) = opens a ++ opens b).
  { induction a as [|[] a IH]; intros b; cbn; rewrite ?IH; reflexivity. }
  assert (Hopen : forall s0 w0 w1,
             connection_params s0 = connection_params s ->
             (exists l, events w0 = events w1 ++ l /\ opens l = []) ->
             let '(_, _, w') := open env s0 w0 in
             Forall (fun params => params = connection_params s) (opens (since w1 w'))).
  { intros s0 w0 w1 Hp (l & Hl & Ho).
    unfold open, call, logger, emit. cbn [tick events fst snd]. rewrite Hl, Hp.
    destruct (on_connect env (tick w0)) as [conn | e];
      [| destruct (derives_Exception e)];
      trace; rewrite Hopens, Ho; cbn; repeat constructor. }
  unfold connect.
  destruct (_is_connected s); [destruct (_connection s) as [conn|]|];
    try (apply Hopen; [reflexivity | exists []; rewrite app_nil_r; auto]).
  unfold call. cbn [fst snd].
  destruct (on_execute env (tick w)) as [c | e].
  - trace. constructor.
  - destruct (derives_Exception e).
    + apply Hopen; [reflexivity|].
      unfold logger, emit. cbn [events]. rewrite <- app_assoc.
      eexists. split; [reflexivity | reflexivity].
    + trace. constructor.
Qed.

(** C8 fails as stated: a session whose warehouse is the empty string has
    a warehouse set, and [connect] sends the driver no such key. *)
Lemma blank_warehouse_not_sent :
  let '(_, _, w') := connect sample_env blank_warehouse fresh_world in
  opens (events w') = [connection_params blank_warehouse]
  /\ warehouse blank_warehouse = Some ""%string
  /\ ~ sent_iff_present "warehouse" (warehouse blank_warehouse)
                        (connection_params blank_warehouse).
Proof.
  cbn. repeat split.
  intros [_ H]. discriminate H. discriminate.
Qed.

(** C8, amended.  The dictionary [connect] hands to the driver holds each
    of [warehouse], [database], [schema] and [role], with the session's
    value, exactly when that field is neither [None] nor the empty string;
    otherwise the key is not in the dictionary at all. *)
Theorem optional_fields_sent_when_nonempty :
  forall (env : Environment) (s : t) (w : World),
    kwargs_bound (extra_params s) = true ->
    let '(_, _, w') := connect env s w in
    Forall (fun params =>
              sent_iff_nonempty "warehouse" (warehouse s) params
              /\ sent_iff_nonempty "database" (database s) params
              /\ sent_iff_nonempty "schema" (schema s) params
              /\ sent_iff_nonempty "role" (role s) params)
           (opens (since w w')).
Proof.
  intros env s w Hk.
  pose proof (connect_sends_params env s w) as Hsent.
  destruct (connect env s w) as [[r s'] w'].
  eapply Forall_impl; [|exact Hsent].
  intros params ->. clear Hsent.
  unfold kwargs_bound in Hk.
  repeat (apply andb_prop in Hk; destruct Hk as [Hk ?]).
  repeat match goal with
         | H : negb _ = true |- _ => apply negb_true_iff, dict_has_false in H
         end.
  unfold sent_iff_nonempty, connection_params.
  set (base := dict_update _ (extra_params s)).
  assert (Hbase : forall key,
             dict_get key (extra_params s) = None ->
             String.eqb key "account" = false -> String.eqb key "user" = false ->
             String.eqb key "password" = false -> String.eqb key "authenticator" = false ->
             dict_get key base = None).
  { intros key He Ha Hu Hp Hau. unfold base.
    rewrite dict_get_update_absent by assumption.
    cbn. rewrite Ha, Hu, Hp, Hau. reflexivity. }
  repeat split.
  - rewrite !(@add_if_other "warehouse") by reflexivity.
    rewrite add_if_same, Hbase by auto. destruct (truthy _); reflexivity.
  - rewrite !(@add_if_other "database") by reflexivity.
    rewrite add_if_same, (@add_if_other "database") by reflexivity.
    rewrite Hbase by auto. destruct (truthy _); reflexivity.
  - rewrite !(@add_if_other "schema") by reflexivity.
    rewrite add_if_same, !(@add_if_other "schema") by reflexivity.
    rewrite Hbase by auto. destruct (truthy _); reflexivity.
  - rewrite add_if_same, !(@add_if_other "role") by reflexivity.
    rewrite Hbase by auto. destruct (truthy _); reflexivity.
Qed.

(** ** The facade *)

Lemma refuses_when_not_connected (env : Environment) (p : Facade.Process) :
  Facade._ensure_connected p = Raise not_connected -> refuses env p.
Proof.
  intros H sql chunk_size batch_size kwargs.
  unfold Facade.query, Facade.query_batches, Facade.query_dict,
    Facade.query_dict_batches, Facade.execute, Facade.fetch_one,
    Facade.fetch_all, Facade.entry.
  rewrite H. repeat split.
Qed.

Lemma disconnected_manager_refused (c : SnowflakeConnection.t) retriever (w : World) :
  _is_connected c = false ->
  Facade._ensure_connected
    (Facade.mkProcess (Some (ConnectionManager.mk (Some c) retriever)) w)
  = Raise not_connected.
Proof.
  intros H. unfold Facade._ensure_connected, ConnectionManager.is_connected.
  cbn. rewrite H. reflexivity.
Qed.

(** After the facade's [disconnect] the process is not connected, also
    when [disconnect] raised. *)
Lemma facade_disconnect_not_connected (env : Environment) (p : Facade.Process) :
  Facade._ensure_connected (snd (Facade.disconnect env p)) = Raise not_connected.
Proof.
  destruct p as [[[[c|] retr]|] w0]; cbn; auto.
  unfold disconnect.
  destruct (_connection c) as [conn|]; cbn; auto.
  destruct (on_close env (tick w0)) as [[]|e]; cbn; auto.
  destruct (derives_Exception e); cbn; auto.
Qed.

(** A manager's [connect] that raises on a new manager leaves a manager
    that is not connected. *)
Lemma failed_manager_connect (env : Environment) account user password
      warehouse role kwargs (w : World) :
  match ConnectionManager.connect env ConnectionManager.init
          account (Some user) (Some password) warehouse role kwargs w with
  | (Raise _, m, _) => ConnectionManager.is_connected m = false
  | (Ok _, _, _) => True
  end.
Proof.
  unfold ConnectionManager.connect. cbn [ConnectionManager.or_prompt].
  destruct (clashing kwargs) as [key|]; [reflexivity|].
  match goal with
  | |- context [SnowflakeConnection.connect env ?c ?w0] =>
      pose proof (@connect_outcome_fresh env c w0 (conj eq_refl eq_refl)) as H;
      destruct (SnowflakeConnection.connect env c w0) as [[[conn|e] c'] w']
  end; [exact I|].
  unfold ConnectionManager.is_connected. cbn. apply H.
Qed.

(** A [connect] that fails in a process that was not connected leaves it
    not connected. *)
Lemma failed_connect_not_connected (env : Environment) account user password
      warehouse role kwargs (p : Facade.Process) :
  Facade._ensure_connected p = Raise not_connected ->
  match Facade.connect env account user password warehouse role kwargs p with
  | (Raise _, p') => Facade._ensure_connected p' = Raise not_connected
  | (Ok _, _) => True
  end.
Proof.
  intros Hp. unfold Facade.connect.
  destruct (ConnectionManager.or_prompt env user false _ (Facade.world p))
    as [[u|e] w1]; [|destruct p; exact Hp].
  destruct (ConnectionManager.or_prompt env password true _ w1)
    as [[pw|e] w2]; [|destruct p; exact Hp].
  match goal with
  | |- context [ConnectionManager.connect env _ ?a _ _ _ _ _ ?w0] =>
      pose proof (@failed_manager_connect env a u pw warehouse role kwargs w0) as H;
      destruct (ConnectionManager.connect env ConnectionManager.init a (Some u) (Some pw)
                  warehouse role kwargs w0) as [[[|e] m] w']
  end; [exact I|].
  unfold Facade._ensure_connected. cbn. rewrite H. reflexivity.
Qed.

(** C4.  In a process where [connect] has not succeeded (the module was
    just imported, or every [connect] so far has failed) and in a process
    where [disconnect] has just returned, each of [query],
    [query_batches], [query_dict], [query_dict_batches], [execute],
    [fetch_one] and [fetch_all] raises the not-connected error of
    [_ensure_connected] at the call, and nothing is sent to the driver. *)
Theorem entry_points_need_connection :
  forall (env : Environment) (p : Facade.Process)
         (account user password warehouse role : option string)
         (kwargs : Dict Value),
    refuses env Facade.imported
    /\ refuses env (snd (Facade.disconnect env p))
    /\ match Facade.connect env account user password warehouse role kwargs
               Facade.imported with
       | (Raise _, p') =>
           refuses env p'
           /\ match Facade.connect env account user password warehouse role kwargs p' with
              | (Raise _, p'') => refuses env p''
              | (Ok _, _) => True
              end
       | (Ok _, _) => True
       end.
Proof.
  intros env p account user password warehouse role kwargs.
  split; [| split].
  - apply refuses_when_not_connected. reflexivity.
  - apply refuses_when_not_connected, facade_disconnect_not_connected.
  - pose proof (@failed_connect_not_connected env account user password
                  warehouse role kwargs Facade.imported eq_refl) as H1.
    destruct (Facade.connect env account user password warehouse role kwargs
                Facade.imported) as [[|e] p']; [exact I|].
    split; [apply refuses_when_not_connected, H1|].
    pose proof (@failed_connect_not_connected env account user password
                  warehouse role kwargs p' H1) as H2.
    destruct (Facade.connect env account user password warehouse role kwargs p')
      as [[|e'] p'']; [exact I|].
    apply refuses_when_not_connected, H2.
Qed.

(** Once [connect] has succeeded the entry points go through: a query is
    run on the connection and its rows come back. *)
Example connected_query_goes_through :
  let env := mkEnv (fun n => Ok (100 + n))
                   (fun _ => Ok (executed sample_descr sample_rows))
                   (fun _ => Ok tt) (fun _ => Ok "alice"%string) in
  let '(r, p) := Facade.connect env None None None None None [] Facade.imported in
  r = Ok tt
  /\ fst (Facade.fetch_all env "SELECT * FROM T" [] p) = Ok sample_rows
  /\ fst (Facade.query env "SELECT * FROM T" (Some 2) [] p)
     = Ok (mkDataFrame ["ID"; "NAME"]%string sample_rows)
  /\ refuses env (snd (Facade.disconnect env p)).
Proof.
  cbn. repeat split; reflexivity.
Qed.

(** A generator handed out by the facade, started and pulled: the query
    reaches the driver at the first [next()], not before. *)
Example facade_batches_are_lazy :
  let env := mkEnv (fun n => Ok (100 + n))
                   (fun _ => Ok (executed sample_descr sample_rows))
                   (fun _ => Ok tt) (fun _ => Ok "alice"%string) in
  let '(_, p) := Facade.connect env None None None None None [] Facade.imported in
  let '(g, p') := Facade.query_batches "SELECT * FROM T" 2 [] p in
  g = Ok (Defer "SELECT * FROM T" 2 [])
  /\ executes (events (Facade.world p')) = []
  /\ match Facade._connection_manager p' with
     | Some (ConnectionManager.mk (Some c) _) =>
         match start env c (Defer "SELECT * FROM T" 2 []) (Facade.world p') with
         | (Ok gen, _, w) =>
             executes (events w) = [(102, "SELECT 1"); (102, "SELECT * FROM T")]%string
             /\ map (fun frame => length (df_rows frame)) (fst (pull pandas_batch 4 gen))
                = [2; 2; 1]
         | _ => False
         end
     | _ => False
     end.
Proof. cbn. repeat split; reflexivity. Qed.

(** ** The properties at the sample data *)

(** Five rows pulled two at a time make three batches. *)
Lemma lazy_batches_partition_witness :
  0 < 2
  /\ ceil_div (length sample_rows) 2 < 4
  /\ length (fst (pull pandas_batch 4
                    (fetch_pandas_batches (executed sample_descr sample_rows) 2))) = 3.
Proof.
  assert (Hk : 0 < 2) by lia.
  assert (Hn : ceil_div (length sample_rows) 2 < 4) by (cbv; lia).
  split; [exact Hk | split; [exact Hn |]].
  exact (proj1 (proj1 (@lazy_batches_partition sample_descr sample_rows 2 4 Hk Hn))).
Defined.

(** The sample session holds handle 7, the probe on it fails, and the
    driver is asked once for a new connection. *)
Lemma cached_handle_witness :
  _connection sample_session = Some 7
  /\ _is_connected sample_session = true
  /\ executes (since fresh_world
                 (snd (connect sample_env sample_session fresh_world)))
     = [(7, "SELECT 1"%string)].
Proof.
  split; [reflexivity | split; [reflexivity |]].
  exact (proj1 (proj2
    (@cached_handle_probed_then_reused_or_reopened
       sample_env sample_session fresh_world 7 "SELECT 2"%string []
       eq_refl eq_refl))).
Defined.

(** The sample session sends its warehouse and its role, and neither a
    database nor a schema. *)
Lemma optional_fields_witness :
  kwargs_bound (extra_params sample_session) = true
  /\ Forall (fun params =>
               sent_iff_nonempty "warehouse" (warehouse sample_session) params
               /\ sent_iff_nonempty "database" (database sample_session) params
               /\ sent_iff_nonempty "schema" (schema sample_session) params
               /\ sent_iff_nonempty "role" (role sample_session) params)
            (opens (since fresh_world
                      (snd (connect sample_env sample_session fresh_world)))).
Proof.
  split; [reflexivity |].
  exact (@optional_fields_sent_when_nonempty
           sample_env sample_session fresh_world eq_refl).
Defined.

(** The sample session, its cached connection dead and the driver
    unreachable: [connect] raises and leaves the session disconnected. *)
Lemma failed_connect_witness :
  flag_needs_handle sample_session = true
  /\ is_raise (fst (fst (connect dead_env sample_session fresh_world))) = true
  /\ disconnected (snd (fst (connect dead_env sample_session fresh_world))).
Proof.
  split; [reflexivity | split; [reflexivity |]].
  exact (proj1 (proj1
    (@connect_failure_clears_session
       dead_env sample_session fresh_world "SELECT 2"%string [] eq_refl))).
Defined.

(** ** Further properties of the retrieval methods *)

(** X1.  [fetch_pandas], [fetch_dict], [fetch_one] and [fetch_all] call
    [close()] on their cursor exactly once, whatever [chunk_size] is
    ([None], zero or positive) and also when [fetch_pandas] ends with the
    [ValueError] of [pd.concat]. *)
Theorem every_fetch_closes_cursor :
  forall (c : Cursor) (chunk_size : option nat),
    close_calls (snd (fetch_pandas c chunk_size)) = S (close_calls c)
    /\ close_calls (snd (fetch_dict c chunk_size)) = S (close_calls c)
    /\ close_calls (snd (fetch_one c)) = S (close_calls c)
    /\ close_calls (snd (fetch_all c)) = S (close_calls c).
Proof.
  intros c chunk_size.
  assert (Hone : close_calls (snd (fetch_one c)) = S (close_calls c)).
  { unfold fetch_one, fetchone. destruct (pending c); reflexivity. }
  destruct chunk_size as [[|k]|].
  - repeat split; try reflexivity; exact Hone.
  - rewrite fetch_pandas_chunked, fetch_dict_chunked by lia.
    repeat split; try reflexivity; exact Hone.
  - repeat split; try reflexivity; exact Hone.
Qed.

(** X2.  Fetching in chunks changes nothing in what [fetch_dict] returns:
    for a positive [chunk_size] it returns the list of dictionaries it
    returns without one.  A [chunk_size] of zero is the same as none, for
    [fetch_dict] and for [fetch_pandas].  Either way the cursor is left
    with no pending row. *)
Theorem chunked_fetch_dict_same_result :
  forall (c : Cursor) (k : nat),
    0 < k ->
    fst (fetch_dict c (Some k)) = fst (fetch_dict c None)
    /\ fetch_dict c (Some 0) = fetch_dict c None
    /\ fetch_pandas c (Some 0) = fetch_pandas c None
    /\ pending (snd (fetch_dict c (Some k))) = []
    /\ pending (snd (fetch_pandas c (Some k))) = []
    /\ pending (snd (fetch_dict c None)) = []
    /\ pending (snd (fetch_pandas c None)) = [].
Proof.
  intros c k Hk.
  rewrite (@fetch_dict_chunked c k Hk), (@fetch_pandas_chunked c k Hk).
  repeat split.
Qed.

Lemma chunked_fetch_dict_same_result_witness :
  0 < 2
  /\ fst (fetch_dict (executed sample_descr sample_rows) (Some 2))
     = fst (fetch_dict (executed sample_descr sample_rows) None).
Proof.
  assert (Hk : 0 < 2) by lia.
  split; [exact Hk |].
  exact (proj1 (@chunked_fetch_dict_same_result
                  (executed sample_descr sample_rows) 2 Hk)).
Defined.

(** X3.  With [batch_size = 0] the first [fetchmany] comes back empty, so
    both generators end at the first [next()] without a batch: the rows of
    the result stay on the cursor, which is closed. *)
Theorem zero_batch_size_yields_nothing :
  forall (c : Cursor) (n : nat),
    let left := close (mkCursor (description c) (pending c)
                                (S (fetch_calls c)) (close_calls c)) in
    pull pandas_batch (S n) (fetch_pandas_batches c 0) = ([], Finished (Some left))
    /\ pull dict_batch (S n) (fetch_dict_batches c 0) = ([], Finished (Some left)).
Proof.
  intros c n left.
  split; rewrite pull_S; cbn; rewrite pull_finished; reflexivity.
Qed.

Section OnDemand.
Variable B : Type.
Variable make : list string -> list Row -> B.

Lemma firstn_chunked_cons (n k : nat) (x : Row) (l : list Row) :
  0 < k ->
  firstn (S n) (chunked k (x :: l)) =
    firstn k (x :: l) :: firstn n (chunked k (skipn k (x :: l))).
Proof. intros Hk. rewrite chunked_cons by assumption. reflexivity. Qed.

(** A parked generator pulled [n + 1] times while rows remain. *)
Lemma pull_parked_partial k names (Hk : 0 < k) :
  forall n c count,
    n * k < length (pending c) ->
    pull make (S n) (Parked c names count k) =
      (map (make names) (firstn (S n) (chunked k (pending c))),
       Parked (mkCursor (description c) (skipn (S n * k) (pending c))
                        (fetch_calls c + S n) (close_calls c))
              names (count + S n) k).
Proof.
  induction n as [|n IH]; intros c count Hn.
  - rewrite pull_S. unfold next, resume, fetchmany.
    destruct (pending c) as [|x l] eqn:Hc; [simpl in Hn; lia|].
    rewrite firstn_chunked_cons by assumption.
    destruct k as [|k']; [lia|]. cbn [firstn map]. cbn [pull run repeat].
    rewrite Nat.mul_1_l, !Nat.add_1_r. reflexivity.
  - rewrite pull_S. unfold next, resume, fetchmany.
    destruct (pending c) as [|x l] eqn:Hc; [simpl in Hn; lia|].
    rewrite firstn_chunked_cons by assumption.
    destruct k as [|k']; [lia|]. cbn [firstn].
    set (c' := mkCursor _ _ _ _).
    assert (Hc' : pending c' = skipn (S k') (x :: l)) by reflexivity.
    rewrite (IH c' (S count)).
    + rewrite Hc'. cbn [map firstn]. f_equal. f_equal.
      * unfold c'. cbn [description fetch_calls close_calls].
        f_equal; [| lia].
        rewrite skipn_skipn. f_equal. lia.
      * lia.
    + rewrite Hc', length_skipn. simpl length in *. lia.
Qed.
End OnDemand.

(** X4.  The generators fetch on demand and never ahead: as long as rows
    remain, after [n + 1] calls of [next()] the consumer holds the first
    [n + 1] batches, [fetchmany] was called [n + 1] times, the rows not
    yet handed out are still on the cursor, and the cursor is open. *)
Theorem generators_fetch_on_demand :
  forall (descr : list ColumnMeta) (rows : list Row) (k n : nat),
    0 < k ->
    n * k < length rows ->
    let names := map col_name descr in
    let rest := mkCursor descr (skipn (S n * k) rows) (S n) 0 in
    pull pandas_batch (S n) (fetch_pandas_batches (executed descr rows) k) =
      (map (pandas_batch names) (firstn (S n) (chunked k rows)),
       Parked rest names (S n) k)
    /\ pull dict_batch (S n) (fetch_dict_batches (executed descr rows) k) =
         (map (dict_batch names) (firstn (S n) (chunked k rows)),
          Parked rest names (S n) k).
Proof.
  intros descr rows k n Hk Hn names rest.
  unfold fetch_pandas_batches, fetch_dict_batches.
  rewrite !pull_unstarted.
  rewrite !(@pull_parked_partial _ _ k _ Hk n) by exact Hn.
  split; reflexivity.
Qed.

Lemma generators_fetch_on_demand_witness :
  0 < 2
  /\ 1 * 2 < length sample_rows
  /\ snd (pull pandas_batch 2 (fetch_pandas_batches (executed sample_descr sample_rows) 2))
     = Parked (mkCursor sample_descr [[VInt 5; VStr "e"]] 2 0) ["ID"; "NAME"]%string 2 2.
Proof.
  assert (Hk : 0 < 2) by lia.
  assert (Hn : 1 * 2 < length sample_rows) by (cbv; lia).
  split; [exact Hk | split; [exact Hn |]].
  exact (f_equal snd (proj1 (@generators_fetch_on_demand
                               sample_descr sample_rows 2 1 Hk Hn))).
Defined.

(** ** Row dictionaries *)

Section DictOf.
Variable V : Type.
Implicit Types (d : Dict V) (pairs : list (string * V)).

Lemma fold_set_get k pairs d :
  dict_get k (fold_left (fun d kv => dict_set (fst kv) (snd kv) d) pairs d) =
    match last_value k pairs with
    | Some v => Some v
    | None => dict_get k d
    end.
Proof.
  revert d. induction pairs as [|[k' v'] pairs IH]; intros d; [reflexivity|].
  cbn [fold_left last_value fst snd]. rewrite IH.
  destruct (last_value k pairs) as [v|]; [reflexivity|].
  destruct (String.eqb k k') eqn:E.
  - apply String.eqb_eq in E. subst k'. apply dict_get_set_same.
  - apply dict_get_set_other, E.
Qed.

Lemma dict_set_fresh k (v : V) d :
  ~ In k (map fst d) -> dict_set k v d = d ++ [(k, v)].
Proof.
  induction d as [|[k' v'] d IH]; intros Hk; [reflexivity|].
  cbn in *. destruct (String.eqb k k') eqn:E.
  - apply String.eqb_eq in E. subst k'. tauto.
  - rewrite IH by tauto. reflexivity.
Qed.

Lemma fold_set_distinct pairs d :
  NoDup (map fst d ++ map fst pairs) ->
  fold_left (fun d kv => dict_set (fst kv) (snd kv) d) pairs d = d ++ pairs.
Proof.
  revert d. induction pairs as [|[k v] pairs IH]; intros d Hnd.
  - rewrite app_nil_r. reflexivity.
  - cbn [fold_left fst snd map] in *.
    pose proof (NoDup_remove_2 _ _ _ Hnd) as Hk.
    rewrite dict_set_fresh by (intros Hin; apply Hk, in_or_app; auto).
    rewrite IH.
    + rewrite <- app_assoc. reflexivity.
    + rewrite map_app, <- app_assoc. exact Hnd.
Qed.
End DictOf.

Lemma in_zip_keys {A B} (k : A) (xs : list A) (ys : list B) :
  In k (map fst (zip xs ys)) -> In k xs.
Proof.
  revert ys. induction xs as [|x xs IH]; intros [|y ys]; cbn; try tauto.
  intros [-> | H]; eauto.
Qed.

Lemma NoDup_zip_keys {A B} (xs : list A) (ys : list B) :
  NoDup xs -> NoDup (map fst (zip xs ys)).
Proof.
  revert ys. induction xs as [|x xs IH]; intros [|y ys] Hnd; cbn; try constructor.
  - inversion Hnd; subst. intros Hin. apply in_zip_keys in Hin. contradiction.
  - inversion Hnd; subst. apply IH. assumption.
Qed.

(** X5.  When the column names are distinct, the dictionary of a row is
    the row's cells paired with the names, in the order of the cursor's
    description. *)
Theorem row_dict_distinct_names :
  forall (names : list string) (row : Row),
    NoDup names -> row_dict names row = zip names row.
Proof.
  intros names row Hnd. unfold row_dict, dict_of.
  rewrite fold_set_distinct; [reflexivity|].
  cbn [map app]. apply NoDup_zip_keys, Hnd.
Qed.

Lemma row_dict_distinct_names_witness :
  NoDup ["ID"; "NAME"]%string
  /\ row_dict ["ID"; "NAME"]%string [VInt 1; VStr "a"]
     = [("ID"%string, VInt 1); ("NAME"%string, VStr "a")].
Proof.
  assert (Hnd : NoDup ["ID"; "NAME"]%string).
  { repeat constructor; cbn; intuition discriminate. }
  split; [exact Hnd |].
  exact (@row_dict_distinct_names ["ID"; "NAME"]%string [VInt 1; VStr "a"] Hnd).
Defined.

Lemma last_value_none {V} (k : string) (names : list string) (vs : list V) :
  (forall j, j < length names -> j < length vs -> nth j names ""%string <> k) ->
  last_value k (zip names vs) = None.
Proof.
  revert vs. induction names as [|a names IH]; intros [|v vs] H; try reflexivity.
  cbn [zip combine last_value].
  change (combine names vs) with (zip names vs).
  rewrite IH.
  - destruct (String.eqb k a) eqn:E; [|reflexivity].
    apply String.eqb_eq in E. subst a.
    exfalso. apply (H 0); cbn; lia || reflexivity.
  - intros j Hj1 Hj2. apply (H (S j)); cbn; lia.
Qed.

(** X6.  Looking a column name up in the dictionary of a row gives the
    cell of the last column that bears this name: when two columns of the
    result share a name, the earlier one is not in the dictionary. *)
Theorem row_dict_last_column_wins :
  forall (names : list string) (row : Row) (i : nat),
    i < length names ->
    i < length row ->
    (forall j, i < j -> j < length names -> j < length row ->
               nth j names ""%string <> nth i names ""%string) ->
    dict_get (nth i names ""%string) (row_dict names row) = Some (nth i row VNone).
Proof.
  intros names row i Hi1 Hi2 Hlast.
  unfold row_dict, dict_of. rewrite fold_set_get.
  cbn [dict_get].
  assert (H : last_value (nth i names ""%string) (zip names row) = Some (nth i row VNone)).
  { revert row i Hi1 Hi2 Hlast.
    induction names as [|a names IH]; intros [|v vs] i Hi1 Hi2 Hlast;
      cbn [length] in *; try lia.
    cbn [zip combine last_value]. change (combine names vs) with (zip names vs).
    destruct i as [|i].
    - cbn [nth]. rewrite last_value_none.
      + rewrite String.eqb_refl. reflexivity.
      + intros j Hj1 Hj2. apply (Hlast (S j)); cbn; lia.
    - cbn [nth]. rewrite (IH vs i); [reflexivity | lia | lia |].
      intros j Hj Hj1 Hj2. apply (Hlast (S j)); cbn; lia. }
  rewrite H. reflexivity.
Qed.

Lemma row_dict_last_column_wins_witness :
  1 < length ["A"; "A"]%string
  /\ 1 < length [VInt 1; VInt 2]
  /\ dict_get "A" (row_dict ["A"; "A"]%string [VInt 1; VInt 2]) = Some (VInt 2)
  /\ row_dict ["A"; "A"]%string [VInt 1; VInt 2] = [("A"%string, VInt 2)].
Proof.
  assert (H1 : 1 < length ["A"; "A"]%string) by (cbn; lia).
  assert (H2 : 1 < length [VInt 1; VInt 2]) by (cbn; lia).
  split; [exact H1 | split; [exact H2 | split; [| reflexivity]]].
  refine (@row_dict_last_column_wins ["A"; "A"]%string [VInt 1; VInt 2] 1 H1 H2 _).
  intros j Hj Hj1 _. cbn in Hj1. lia.
Defined.

(** ** Further properties of the session *)

Lemma dict_get_absent V (k : string) (d : Dict V) :
  ~ In k (map fst d) -> dict_get k d = None.
Proof.
  induction d as [|[k' v'] d IH]; intros Hk; [reflexivity|].
  cbn in *. destruct (String.eqb k k') eqn:E.
  - apply String.eqb_eq in E. subst k'. tauto.
  - apply IH. tauto.
Qed.

Lemma dict_get_update_present V (k : string) (v : V) (d e : Dict V) :
  NoDup (map fst e) -> dict_get k e = Some v ->
  dict_get k (dict_update d e) = Some v.
Proof.
  unfold dict_update. revert d.
  induction e as [|[k' v'] e IH]; intros d Hnd He; [discriminate|].
  cbn in *. inversion Hnd as [|? ? Hk' Hnd']; subst.
  destruct (String.eqb k k') eqn:E.
  - apply String.eqb_eq in E. subst k'. injection He as ->.
    change (dict_get k (dict_update (dict_set k v d) e) = Some v).
    rewrite dict_get_update_absent by (apply dict_get_absent; assumption).
    apply dict_get_set_same.
  - apply IH; assumption.
Qed.

Lemma key_differs V (k k' : string) (d : Dict V) (v : V) :
  dict_get k d = Some v -> dict_get k' d = None -> String.eqb k k' = false.
Proof.
  intros Hk Hk'. destruct (String.eqb k k') eqn:E; [|reflexivity].
  apply String.eqb_eq in E. subst k'. congruence.
Qed.

(** X7.  The four required parameters reach the driver with the values
    the session was built with, whether or not extra keyword arguments
    were given to [__init__], and every extra keyword argument reaches it
    unchanged. *)
Theorem required_and_extra_params_forwarded :
  forall (s : t),
    kwargs_unnamed (extra_params s) = true ->
    NoDup (map fst (extra_params s)) ->
    (dict_get "account" (connection_params s) = Some (VStr (account s))
     /\ dict_get "user" (connection_params s) = Some (VStr (user s))
     /\ dict_get "password" (connection_params s) = Some (VStr (password s))
     /\ dict_get "authenticator" (connection_params s) = Some (VStr (authenticator s)))
    /\ (forall (key : string) (v : Value),
          dict_get key (extra_params s) = Some v ->
          dict_get key (connection_params s) = Some v).
Proof.
  intros s Hk Hnd.
  unfold kwargs_unnamed, kwargs_bound in Hk.
  repeat (apply andb_prop in Hk; destruct Hk as [Hk ?]).
  repeat match goal with
         | H : negb _ = true |- _ => apply negb_true_iff, dict_has_false in H
         end.
  unfold connection_params.
  set (base := dict_update _ (extra_params s)).
  assert (Hreq : forall k, dict_get k (extra_params s) = None ->
                           dict_get k base = dict_get k
                             [("account"%string, VStr (account s));
                              ("user"%string, VStr (user s));
                              ("password"%string, VStr (password s));
                              ("authenticator"%string, VStr (authenticator s))]).
  { intros k Hnone. unfold base. apply dict_get_update_absent, Hnone. }
  split; [repeat split |].
  - rewrite !add_if_other, Hreq by (reflexivity || assumption). reflexivity.
  - rewrite !add_if_other, Hreq by (reflexivity || assumption). reflexivity.
  - rewrite !add_if_other, Hreq by (reflexivity || assumption). reflexivity.
  - rewrite !add_if_other, Hreq by (reflexivity || assumption). reflexivity.
  - intros key v Hkey.
    rewrite !add_if_other by (eapply key_differs; eassumption).
    unfold base. apply dict_get_update_present; assumption.
Qed.

Lemma required_and_extra_params_forwarded_witness :
  kwargs_unnamed (extra_params sample_session) = true
  /\ NoDup (map fst (extra_params sample_session))
  /\ dict_get "account" (connection_params sample_session) = Some (VStr "acct")
  /\ dict_get "login_timeout" (connection_params sample_session) = Some (VInt 10).
Proof.
  assert (Hnd : NoDup (map fst (extra_params sample_session))).
  { repeat constructor. cbn. tauto. }
  split; [reflexivity | split; [exact Hnd | split]].
  - exact (proj1 (proj1 (@required_and_extra_params_forwarded
                           sample_session eq_refl Hnd))).
  - exact (proj2 (@required_and_extra_params_forwarded sample_session eq_refl Hnd)
                 "login_timeout"%string (VInt 10) eq_refl).
Defined.

(** A session built without extra keyword arguments. *)
Example required_params_without_extras :
  map (fun key => dict_get key (connection_params blank_warehouse))
      ["account"; "user"; "password"; "authenticator"]%string
  = [Some (VStr "acct"); Some (VStr "alice"); Some (VStr "s3cret");
     Some (VStr "snowflake")].
Proof. reflexivity. Qed.

Lemma closes_app (a b : list Event) : closes (a ++ b) = closes a ++ closes b.
Proof. induction a as [|[] a IH]; cbn; rewrite ?IH; reflexivity. Qed.

(** What [disconnect] asks of the driver, and what it leaves. *)
Lemma disconnect_spec (env : Environment) (s : t) (w : World) :
  let '(r, s', w') := disconnect env s w in
  _connection s' = None
  /\ closes (since w w') = match _connection s with Some conn => [conn] | None => [] end
  /\ opens (since w w') = []
  /\ executes (since w w') = []
  /\ match _connection s, on_close env (tick w) with
     | Some _, Raise e => if derives_Exception e then r = Ok tt else r = Raise e
     | _, _ => r = Ok tt
     end.
Proof.
  unfold disconnect. destruct (_connection s) as [conn|] eqn:Hc.
  - unfold call. cbn [fst snd].
    destruct (on_close env (tick w)) as [[]|e];
      [| destruct (derives_Exception e)]; trace; repeat split.
  - rewrite since_refl. repeat split. exact Hc.
Qed.

(** X8.  [with connection: body] connects first; when that raises, the
    body is not run and the statement raises the same, with the session as
    [connect] left it.  Otherwise the body runs, and whether it returns or
    raises, the driver is then asked to close the handle the session holds
    (once, and only if it holds one) and the session is left without a
    handle.  The statement gives the body's value or exception, unless
    [close()] raises something that does not derive from [Exception],
    which is then raised in its place. *)
Theorem with_connection_always_disconnects :
  forall (A : Type) (env : Environment)
         (body : t -> World -> Result A * t * World) (s : t) (w : World),
    let '(r, s', w') := with_connection env body s w in
    match connect env s w with
    | (Raise e, s1, w1) =>
        r = Raise e /\ s' = s1 /\ w' = w1
        /\ (if derives_Exception e then disconnected s'
            else s' = s \/ disconnected s')
    | (Ok _, s1, w1) =>
        let '(rb, s2, w2) := body s1 w1 in
        _connection s' = None
        /\ closes (since w2 w') =
             match _connection s2 with Some conn => [conn] | None => [] end
        /\ match _connection s2, on_close env (tick w2) with
           | Some _, Raise e => if derives_Exception e then r = rb else r = Raise e
           | _, _ => r = rb
           end
    end.
Proof.
  intros A env body s w. unfold with_connection, __enter__, __exit__.
  pose proof (connect_outcome env s w) as Hc.
  destruct (connect env s w) as [[[conn|e] s1] w1].
  - destruct (body s1 w1) as [[rb s2] w2].
    pose proof (disconnect_spec env s2 w2) as Hd.
    destruct (disconnect env s2 w2) as [[rd s3] w3].
    destruct Hd as (Hnone & Hcl & _ & _ & Hr).
    destruct (_connection s2) as [conn2|].
    + destruct (on_close env (tick w2)) as [[]|e].
      * subst rd. auto.
      * destruct (derives_Exception e); subst rd; auto.
    + subst rd. auto.
  - repeat split. exact Hc.
Qed.

(** X9.  [execute_query] on a session that holds no connection (a state
    the methods of the class leave with the connected flag cleared) opens
    one first, with the session's parameters and without probing; the
    statement is then run on the new handle, and is not sent at all when
    the opening fails, in which case the driver's exception comes out
    unchanged and the session is left disconnected. *)
Theorem execute_query_connects_first :
  forall (env : Environment) (s : t) (w : World)
         (query : string) (kwargs : Dict Value),
    _connection s = None ->
    flag_needs_handle s = true ->
    let '(r, s', w') := execute_query env s query kwargs w in
    opens (since w w') = [connection_params s]
    /\ match on_connect env (tick w) with
       | Ok fresh =>
           executes (since w w') = [(fresh, query)]
           /\ r = on_execute env (S (tick w))
           /\ _connection s' = Some fresh /\ _is_connected s' = true
       | Raise e =>
           executes (since w w') = []
           /\ r = Raise e
           /\ disconnected s'
       end.
Proof.
  intros env s w query kwargs Hnone Hinv.
  assert (Hflag : _is_connected s = false).
  { unfold flag_needs_handle in Hinv. rewrite Hnone in Hinv.
    destruct (_is_connected s); [discriminate | reflexivity]. }
  unfold execute_query, get_connection, connect. rewrite Hnone, Hflag.
  unfold open, call, logger, emit, disconnected. cbn [tick events fst snd].
  destruct (on_connect env (tick w)) as [fresh|e];
    [| destruct (derives_Exception e)]; trace; repeat split; assumption.
Qed.

Lemma execute_query_connects_first_witness :
  _connection blank_warehouse = None
  /\ flag_needs_handle blank_warehouse = true
  /\ executes (since fresh_world
                 (snd (execute_query live_env blank_warehouse "SELECT 2" [] fresh_world)))
     = [(100, "SELECT 2"%string)].
Proof.
  split; [reflexivity | split; [reflexivity |]].
  exact (proj1 (proj2 (@execute_query_connects_first
                         live_env blank_warehouse fresh_world "SELECT 2"%string []
                         eq_refl eq_refl))).
Defined.

(** ** Further properties of the manager and of the facade *)

Ltac trace_all :=
  trace; rewrite ?since_refl; cbn [prompts prints closes executes opens logs].

(** Split on every answer of the environment the goal depends on. *)
Ltac answers env :=
  repeat match goal with
         | |- context [clashing ?k] => destruct (clashing k)
         | |- context [on_prompt env ?t] => destruct (on_prompt env t)
         | |- context [on_connect env ?t] =>
             let e := fresh "e" in
             destruct (on_connect env t) as [? | e];
             [| destruct (derives_Exception e)]
         end.

Lemma manager_refuses_when_not_connected (env : Environment) (m : ConnectionManager.t) :
  ConnectionManager.is_connected m = false -> manager_refuses env m.
Proof.
  intros H sql chunk_size batch_size kwargs w.
  unfold ConnectionManager.query, ConnectionManager.query_batches,
    ConnectionManager.query_dict, ConnectionManager.query_dict_batches,
    ConnectionManager.execute, ConnectionManager.fetch_one,
    ConnectionManager.fetch_all, ConnectionManager.with_cursor,
    ConnectionManager.deferred, ConnectionManager._ensure_connected.
  rewrite H. cbn [negb]. repeat split.
Qed.

(** A [disconnect] that raises has cleared the session all the same. *)
Lemma disconnect_raised (env : Environment) (s : t) (w : World) :
  let '(r, s', _) := disconnect env s w in
  match r with
  | Raise _ => disconnected s'
  | Ok _ => True
  end.
Proof.
  unfold disconnect. destruct (_connection s) as [conn|]; [|exact I].
  destruct (call (on_close env) (DriverClose conn) w) as [[[]|e] w'];
    [| destruct (derives_Exception e)]; try exact I.
  split; reflexivity.
Qed.

(** X10.  A [ConnectionManager] used directly behaves like the facade: a
    new manager and a manager after [disconnect] (whether it returned or
    raised) raise the not-connected error from every query method and send
    nothing to the driver.  A [connect] that raises because [**kwargs]
    repeats a keyword leaves the manager exactly as it was; a [connect]
    that raises at the driver leaves it not connected, also when it was
    connected before the call; a [connect] that returns leaves it
    connected. *)
Theorem manager_methods_need_connection :
  forall (env : Environment) (m : ConnectionManager.t) (w : World)
         (account warehouse role : option string) (user password : string)
         (kwargs : Dict Value),
    manager_refuses env ConnectionManager.init
    /\ manager_refuses env (snd (fst (ConnectionManager.disconnect env m w)))
    /\ match ConnectionManager.connect env m account (Some user) (Some password)
               warehouse role kwargs w with
       | (Raise e, m', w') =>
           match clashing kwargs with
           | Some key => e = duplicate_keyword key /\ m' = m /\ w' = w
           | None => manager_refuses env m'
           end
       | (Ok _, m', _) =>
           ConnectionManager.is_connected m' = true /\ clashing kwargs = None
       end.
Proof.
  intros env m w account warehouse role user password kwargs.
  split; [| split].
  - apply manager_refuses_when_not_connected. reflexivity.
  - apply manager_refuses_when_not_connected.
    unfold ConnectionManager.disconnect.
    destruct (ConnectionManager._connection m) as [c|] eqn:Hc.
    + pose proof (disconnect_raised env c w) as Hd.
      destruct (disconnect env c w) as [[[[]|e] c'] w'].
      * reflexivity.
      * unfold ConnectionManager.is_connected. cbn. apply Hd.
    + cbn [fst snd]. unfold ConnectionManager.is_connected. rewrite Hc. reflexivity.
  - unfold ConnectionManager.connect. cbn [ConnectionManager.or_prompt].
    destruct (clashing kwargs) as [key|]; [auto|].
    match goal with
    | |- context [SnowflakeConnection.connect env ?c ?w0] =>
        pose proof (@connect_outcome_fresh env c w0 (conj eq_refl eq_refl)) as H;
        destruct (SnowflakeConnection.connect env c w0) as [[[conn|e] c'] w']
    end.
    + unfold ConnectionManager.is_connected. cbn. tauto.
    + apply manager_refuses_when_not_connected.
      unfold ConnectionManager.is_connected. cbn. apply H.
Qed.

(** X11.  The facade's [connect] asks only for what is missing: nothing
    when user and password are given, the user name in the clear and the
    password hidden otherwise, the user name first; when the user name
    cannot be read the password is not asked for. *)
Theorem connect_prompts_for_missing_credentials :
  forall (env : Environment) (p : Facade.Process)
         (account user password warehouse role : option string)
         (kwargs : Dict Value),
    let asked :=
      prompts (since (Facade.world p)
                 (Facade.world (snd (Facade.connect env account user password
                                       warehouse role kwargs p)))) in
    let for_user := (false, "Enter Snowflake username: "%string) in
    let for_password := (true, "Enter Snowflake password: "%string) in
    match user, password with
    | Some _, Some _ => asked = []
    | None, Some _ => asked = [for_user]
    | Some _, None => asked = [for_password]
    | None, None =>
        match on_prompt env (tick (Facade.world p)) with
        | Ok _ => asked = [for_user; for_password]
        | Raise _ => asked = [for_user]
        end
    end.
Proof.
  intros env [m w] account user password warehouse role kwargs.
  cbn zeta.
  unfold Facade.connect, ConnectionManager.connect, ConnectionManager.or_prompt,
    SnowflakeConnection.connect, open, call, logger, print, emit.
  cbn [Facade.world Facade._connection_manager tick events fst snd
       init _is_connected _connection].
  destruct user as [u|], password as [pw|]; answers env;
    cbn [Facade.world snd fst]; trace_all; reflexivity.
Qed.

(** X12.  What the facade's [connect] writes to the log and prints, what
    it asks the user and what it returns are the same for any two
    passwords passed to it, the answers of the driver being the same. *)
Theorem facade_output_independent_of_password :
  forall (env : Environment) (p : Facade.Process)
         (account user warehouse role : option string) (p1 p2 : string)
         (kwargs : Dict Value),
    let run1 := Facade.connect env account user (Some p1) warehouse role kwargs p in
    let run2 := Facade.connect env account user (Some p2) warehouse role kwargs p in
    let out1 := since (Facade.world p) (Facade.world (snd run1)) in
    let out2 := since (Facade.world p) (Facade.world (snd run2)) in
    fst run1 = fst run2
    /\ logs out1 = logs out2
    /\ prints out1 = prints out2
    /\ prompts out1 = prompts out2.
Proof.
  intros env [m w] account user warehouse role p1 p2 kwargs.
  cbn zeta.
  unfold Facade.connect, ConnectionManager.connect, ConnectionManager.or_prompt,
    SnowflakeConnection.connect, open, call, logger, print, emit.
  cbn [Facade.world Facade._connection_manager tick events fst snd
       init _is_connected _connection SnowflakeConnection.account SnowflakeConnection.user].
  destruct user as [u|]; answers env;
    cbn [Facade.world snd fst]; trace_all; repeat split; reflexivity.
Qed.







(** A caller tries to set the database through [**kwargs]. *)
Example database_keyword_refused :
  Facade.connect live_env None (Some "alice"%string) (Some "s3cret"%string) None None
    [("database"%string, VStr "DB")] Facade.imported
  = (Raise (duplicate_keyword "database"),
     Facade.mkProcess (Some ConnectionManager.init) (mkWorld 0 [])).
Proof. reflexivity. Qed.






(** ** utils.py *)



(** X17.  [get_password] has no fallback when the user ends the input or
    interrupts, when [getpass] fails with something that is not an
    [Exception], or when the program does not run in a Jupyter kernel: the
    exception of [getpass] is raised again and nothing more is asked. *)
Theorem get_password_reraises :
  forall (term : Utils.Terminal) (strip : string -> string) (prompt : string)
         (k : Utils.Kind),
    Utils.getpass term = Utils.Raises k ->
    k = Utils.EOFError \/ k = Utils.KeyboardInterrupt
    \/ Utils.is_Exception k = false
    \/ Utils.is_jupyter term = Utils.Returns false ->
    Utils.get_password term strip prompt = (Utils.Raises k, [Utils.Hidden prompt]).
Proof.
  intros term strip prompt k Hg Hcase. unfold Utils.get_password. rewrite Hg.
  destruct Hcase as [-> | [-> | [Hk | Hj]]]; try reflexivity.
  - destruct k; try discriminate; reflexivity.
  - rewrite Hj. destruct k; reflexivity.
Qed.

Lemma get_password_reraises_witness :
  Utils.getpass (Utils.mkTerminal false false (Utils.Returns tt) (Utils.Returns None)
                   (Utils.Raises Utils.OtherException) (Utils.Returns tt)
                   (Utils.Returns "x"%string) (Utils.Returns "x"%string))
  = Utils.Raises Utils.OtherException
  /\ fst (Utils.get_password
            (Utils.mkTerminal false false (Utils.Returns tt) (Utils.Returns None)
               (Utils.Raises Utils.OtherException) (Utils.Returns tt)
               (Utils.Returns "x"%string) (Utils.Returns "x"%string))
            (fun s => s) "Password: ")
     = Utils.Raises Utils.OtherException.
Proof.
  split; [reflexivity |].
  exact (f_equal fst
    (@get_password_reraises
       (Utils.mkTerminal false false (Utils.Returns tt) (Utils.Returns None)
          (Utils.Raises Utils.OtherException) (Utils.Returns tt)
          (Utils.Returns "x"%string) (Utils.Returns "x"%string))
       (fun s => s) "Password: "%string Utils.OtherException eq_refl
       (or_intror (or_intror (or_intror eq_refl))))).
Defined.

(** ** Further compositions *)



(** X19.  With a positive [chunk_size], [fetch_pandas] and [fetch_dict]
    call [fetchmany] once per chunk and once more for the empty answer
    that ends the loop: [ceil(N/chunk_size) + 1] times over [N] rows, and
    never [fetchall] or the bulk fetch. *)
Theorem chunked_fetch_call_count :
  forall (c : Cursor) (k : nat),
    0 < k ->
    fetch_calls (snd (fetch_pandas c (Some k)))
      = fetch_calls c + S (ceil_div (length (pending c)) k)
    /\ fetch_calls (snd (fetch_dict c (Some k)))
       = fetch_calls c + S (ceil_div (length (pending c)) k).
Proof.
  intros c k Hk.
  rewrite fetch_pandas_chunked, fetch_dict_chunked by assumption.
  split; reflexivity.
Qed.

Lemma chunked_fetch_call_count_witness :
  0 < 2
  /\ fetch_calls (snd (fetch_dict (executed sample_descr sample_rows) (Some 2))) = 4.
Proof.
  assert (Hk : 0 < 2) by lia.
  split; [exact Hk |].
  exact (proj2 (@chunked_fetch_call_count (executed sample_descr sample_rows) 2 Hk)).
Defined.

(** X20.  When the facade's [connect] returns, the process is connected:
    the check every entry point starts with passes, the manager holds a
    session with a handle and the connected flag, and the last line
    printed is the success message.  When it raises because a credential
    could not be read, the process is as connected as it was. *)
Theorem successful_connect_connects :
  forall (env : Environment) (p : Facade.Process)
         (account user password warehouse role : option string)
         (kwargs : Dict Value),
    match Facade.connect env account user password warehouse role kwargs p with
    | (Ok _, p') =>
        (exists m c conn,
            Facade._ensure_connected p' = Ok m
            /\ ConnectionManager._connection m = Some c
            /\ ConnectionManager._retriever m = Some ConnectionManager.Retriever
            /\ _connection c = Some conn /\ _is_connected c = true)
        /\ last (prints (events (Facade.world p'))) ""%string
           = "Successfully connected to Snowflake!"%string
    | (Raise _, p') =>
        Facade._connection_manager p' = Facade._connection_manager p
        \/ Facade._ensure_connected p' = Raise not_connected
    end.
Proof.
  intros env [m w] account user password warehouse role kwargs.
  unfold Facade.connect. cbn [Facade.world Facade._connection_manager].
  destruct (ConnectionManager.or_prompt env user false _ w) as [[u|e] w1];
    [| left; reflexivity].
  destruct (ConnectionManager.or_prompt env password true _ w1) as [[pw|e] w2];
    [| left; reflexivity].
  unfold ConnectionManager.connect. cbn [ConnectionManager.or_prompt].
  destruct (clashing kwargs) as [key|]; [right; reflexivity|].
  match goal with
  | |- context [SnowflakeConnection.connect env ?c ?w0] =>
      pose proof (@connect_outcome_fresh env c w0 (conj eq_refl eq_refl)) as H;
      destruct (SnowflakeConnection.connect env c w0) as [[[conn|e] c'] w']
  end.
  - destruct H as [Hc Hf]. split.
    + exists (ConnectionManager.mk (Some c') (Some ConnectionManager.Retriever)), c', conn.
      unfold Facade._ensure_connected, ConnectionManager.is_connected.
      cbn. rewrite Hf. cbn. auto.
    + unfold print, emit. cbn [Facade.world events].
      assert (Hprints : forall a b, prints (a ++ b) = prints a ++ prints b).
      { induction a as [|[] a IH]; intros b; cbn; rewrite ?IH; reflexivity. }
      rewrite Hprints. cbn [prints]. apply last_last.
  - right. apply disconnected_manager_refused, H.
Qed.
